(** * Tic Tac Toe backend: the game engine of [main.py] over a keyed store

    The handlers of [main.py] ([join_game], [get_game], [make_move],
    [reset_round], [reset_scores]) and the helper [calculate_winner] are
    embedded as functions in a small state-and-error monad over the game
    store; the record type follows the [Game] schema of [schemas.py]. *)

From stdpp Require Import base option list gmap.
From Stdlib Require Import ZArith.

Open Scope Z_scope.

(** ** Python values *)

(** A Python [str] is a sequence of code points. *)
Abbreviation pystr := (list N).

(** The two string literals the handlers compare roles with. *)
Definition str_X : pystr := [88%N].
Definition str_O : pystr := [79%N].

(** [Literal['X', 'O']] of the schema. *)
Inductive mark := X | O.

#[global] Instance mark_eq_dec : EqDecision mark.
Proof. solve_decision. Defined.

Definition other (m : mark) : mark :=
  match m with X => O | O => X end.

(** A board cell, [Optional[Literal['X', 'O']]]. *)
Abbreviation cell := (option mark).

(** Exceptions of the Python runtime and of pydantic that no handler catches. *)
Inductive exn := IndexError | ValidationError.

(** A Python computation that returns a value or raises. *)
Inductive py (A : Type) :=
  | Val (a : A)
  | Raise (e : exn).
Arguments Val {A} a.
Arguments Raise {A} e.

Definition py_bind {A B} (m : py A) (k : A → py B) : py B :=
  match m with
  | Val a => k a
  | Raise e => Raise e
  end.

#[global] Instance py_mret : MRet py := @Val.
#[global] Instance py_mbind : MBind py := λ A B k m, py_bind m k.

(** [l[i]] on a Python list: negative indices count from the end, and an
    index outside the list raises [IndexError]. *)
Definition py_getitem {A} (l : list A) (i : Z) : py A :=
  let n := Z.of_nat (length l) in
  let j := if i <? 0 then i + n else i in
  if (j <? 0) || (n <=? j) then Raise IndexError
  else match l !! Z.to_nat j with
       | Some a => Val a
       | None => Raise IndexError
       end.

(** [l[i] = v] on a Python list. *)
Definition py_setitem {A} (l : list A) (i : Z) (v : A) : py (list A) :=
  let n := Z.of_nat (length l) in
  let j := if i <? 0 then i + n else i in
  if (j <? 0) || (n <=? j) then Raise IndexError
  else Val (<[Z.to_nat j := v]> l).

(** Truth value of an [Optional[Literal['X', 'O']]]: [None] is false, both
    marks are non-empty strings and so true. *)
Definition truthy (c : cell) : bool :=
  match c with Some _ => true | None => false end.

(** Truth value of an [Optional[str]]: [None] and the empty string are false. *)
Definition str_truthy (s : option pystr) : bool :=
  match s with
  | None => false
  | Some [] => false
  | Some (_ :: _) => true
  end.

(** ** calculate_winner *)

Definition lines : list (Z * Z * Z) :=
  [ (0, 1, 2); (3, 4, 5); (6, 7, 8);
    (0, 3, 6); (1, 4, 7); (2, 5, 8);
    (0, 4, 8); (2, 4, 6) ].

(** The condition [board[a] and board[a] == board[b] == board[c]]: the
    chained comparison reads [board[c]] only when the first two are equal. *)
Definition line_test (board : list cell) (a b c : Z) : py bool :=
  ba ← py_getitem board a;
  if truthy ba then
    ba' ← py_getitem board a;
    bb ← py_getitem board b;
    if bool_decide (ba' = bb) then
      bc ← py_getitem board c;
      mret (bool_decide (bb = bc))
    else mret false
  else mret false.

(** The [for a, b, c in lines] loop over the lines still to visit. *)
Fixpoint calculate_winner_from (board : list cell) (ls : list (Z * Z * Z))
  : py cell :=
  match ls with
  | [] => Val None
  | (a, b, c) :: rest =>
      t ← line_test board a b c;
      if t : bool then py_getitem board a
      else calculate_winner_from board rest
  end.

Definition calculate_winner (board : list cell) : py cell :=
  calculate_winner_from board lines.

(** [all(v is not None for v in board)] *)
Definition all_filled (board : list cell) : bool :=
  forallb (λ v, match v with Some _ => true | None => false end) board.

(** ** The Game record of schemas.py *)

Record Game := mkGame {
  game_id : pystr;
  board : list cell;
  x_starts : bool;
  x_is_next : bool;
  x_player : option pystr;
  o_player : option pystr;
  winner : cell;
  draw : bool;
  score_x : Z;
  score_o : Z
}.

(** [[None] * 9] *)
Definition empty_board : list cell := replicate 9 None.

(** [Game(game_id=gid).model_dump()]: the field defaults, after the
    [min_length=4, max_length=4] constraint on [game_id]; the default board
    passes the [board_length] validator. *)
Definition Game_new (gid : pystr) : py Game :=
  if bool_decide (length gid = 4%nat) then
    Val {| game_id := gid; board := empty_board;
           x_starts := true; x_is_next := true;
           x_player := None; o_player := None;
           winner := None; draw := false;
           score_x := 0; score_o := 0 |}
  else Raise ValidationError.

(** ** Errors a request can end with *)

Inductive http_error :=
  | BadGameId            (* 400, game_id must be a 4-digit code *)
  | GameFull             (* 409, Game already has two players *)
  | NotFound             (* 404, Game not found *)
  | InvalidRole          (* 400, Invalid role *)
  | NotAuthorized (m : mark)  (* 403, Not authorized as X / as O *)
  | RoundFinished        (* 409, Round already finished *)
  | NotYourTurn          (* 409, Not your turn *)
  | InvalidIndex         (* 400, Invalid index *)
  | SquareFilled         (* 409, Square already filled *)
  | ServerError (e : exn). (* 500, an exception no handler catches *)

Definition status_code (e : http_error) : Z :=
  match e with
  | BadGameId | InvalidRole | InvalidIndex => 400
  | NotAuthorized _ => 403
  | NotFound => 404
  | GameFull | RoundFinished | NotYourTurn | SquareFilled => 409
  | ServerError _ => 500
  end.

(** ** The store and the handler monad *)

(** Modelled from the spec: the [database] module ([db[COLL]]) is not part of
    the sources. The Game Store is "a keyed persistence layer storing one
    record per room code", with get-by-key, insert and partial field update:
    a finite map from room code to record. *)
Abbreviation Store := (gmap pystr Game).

Inductive outcome (A : Type) :=
  | Ok (a : A)
  | Err (e : http_error).
Arguments Ok {A} a.
Arguments Err {A} e.

(** A handler runs on the store and returns the store it leaves behind with
    its response: writes made before an error is raised stay. *)
Definition Handler (A : Type) : Type := Store → Store * outcome A.

Definition h_ret {A} (a : A) : Handler A := λ st, (st, Ok a).

Definition h_bind {A B} (m : Handler A) (k : A → Handler B) : Handler B :=
  λ st, match m st with
        | (st', Ok a) => k a st'
        | (st', Err e) => (st', Err e)
        end.

#[global] Instance handler_mret : MRet Handler := @h_ret.
#[global] Instance handler_mbind : MBind Handler := λ A B k m, h_bind m k.

(** [raise HTTPException(...)] *)
Definition raise {A} (e : http_error) : Handler A := λ st, (st, Err e).

(** A Python computation inside a handler; what it raises becomes a 500. *)
Definition lift {A} (m : py A) : Handler A :=
  match m with
  | Val a => h_ret a
  | Raise e => raise (ServerError e)
  end.

(** [db[COLL].find_one({"game_id": game_id})] *)
Definition get_game_or_none (game_id : pystr) : Handler (option Game) :=
  λ st, (st, Ok (st !! game_id)).

(** [db[COLL].insert_one(doc)] *)
Definition insert_one (doc : Game) : Handler unit :=
  λ st, (<[game_id doc := doc]> st, Ok ()).

(** [db[COLL].update_one({"game_id": game_id}, {"$set": ...})], the [$set]
    document given as the function it applies to the record. *)
Definition update_one (game_id : pystr) (set : Game → Game) : Handler unit :=
  λ st, (alter set game_id st, Ok ()).

Definition serialize_game (doc : option Game) : option Game :=
  match doc with
  | None => None
  | Some doc =>
      Some {| game_id := game_id doc; board := board doc;
              x_starts := x_starts doc; x_is_next := x_is_next doc;
              x_player := x_player doc; o_player := o_player doc;
              winner := winner doc; draw := draw doc;
              score_x := score_x doc; score_o := score_o doc |}
  end.

(** ** Request payloads *)

Record JoinRequest := mkJoinRequest {
  join_game_id : pystr;
  join_player_id : pystr
}.

Record MoveRequest := mkMoveRequest {
  index : Z;
  role : pystr;
  player_id : pystr
}.

(** The role token of a move as a mark; [None] is
    [payload.role not in ("X", "O")]. *)
Definition mark_of_role (r : pystr) : option mark :=
  if bool_decide (r = str_X) then Some X
  else if bool_decide (r = str_O) then Some O
  else None.

(** The [$set] documents of the handlers. *)
Definition set_x_player (pid : pystr) (g : Game) : Game :=
  {| game_id := game_id g; board := board g;
     x_starts := x_starts g; x_is_next := x_is_next g;
     x_player := Some pid; o_player := o_player g;
     winner := winner g; draw := draw g;
     score_x := score_x g; score_o := score_o g |}.

Definition set_o_player (pid : pystr) (g : Game) : Game :=
  {| game_id := game_id g; board := board g;
     x_starts := x_starts g; x_is_next := x_is_next g;
     x_player := x_player g; o_player := Some pid;
     winner := winner g; draw := draw g;
     score_x := score_x g; score_o := score_o g |}.

Definition set_move (b : list cell) (next : bool) (w : cell) (d : bool)
    (sx so : Z) (g : Game) : Game :=
  {| game_id := game_id g; board := b;
     x_starts := x_starts g; x_is_next := next;
     x_player := x_player g; o_player := o_player g;
     winner := w; draw := d;
     score_x := sx; score_o := so |}.

Definition set_reset_round (starter : bool) (g : Game) : Game :=
  {| game_id := game_id g; board := empty_board;
     x_starts := starter; x_is_next := starter;
     x_player := x_player g; o_player := o_player g;
     winner := None; draw := false;
     score_x := score_x g; score_o := score_o g |}.

Definition set_reset_scores (next : bool) (g : Game) : Game :=
  {| game_id := game_id g; board := empty_board;
     x_starts := x_starts g; x_is_next := next;
     x_player := x_player g; o_player := o_player g;
     winner := None; draw := false;
     score_x := 0; score_o := 0 |}.

(** ** The handlers *)

Section Handlers.

(** [str.isdigit] on one character: the Unicode digit table of the Python
    runtime. *)
Variable char_isdigit : N → bool.

(** [s.isdigit()]: every character is a digit and there is at least one. *)
Definition str_isdigit (s : pystr) : bool :=
  match s with
  | [] => false
  | _ => forallb char_isdigit s
  end.

(** [gid and len(gid) == 4 and gid.isdigit()] *)
Definition valid_code (gid : pystr) : bool :=
  match gid with [] => false | _ => true end
  && bool_decide (length gid = 4%nat)
  && str_isdigit gid.

Definition join_game (payload : JoinRequest) : Handler (mark * option Game) :=
  let gid := join_game_id payload in
  let pid := join_player_id payload in
  if negb (valid_code gid) then raise BadGameId
  else
    game ← get_game_or_none gid;
    match game with
    | None =>
        new_game ← lift (Game_new gid);
        let new_game := set_x_player pid new_game in
        _ ← insert_one new_game;
        mret (X, serialize_game (Some new_game))
    | Some game =>
        if bool_decide (x_player game = Some pid) then
          mret (X, serialize_game (Some game))
        else if bool_decide (o_player game = Some pid) then
          mret (O, serialize_game (Some game))
        else if negb (str_truthy (x_player game)) then
          _ ← update_one gid (set_x_player pid);
          mret (X, serialize_game (Some (set_x_player pid game)))
        else if negb (str_truthy (o_player game)) then
          _ ← update_one gid (set_o_player pid);
          mret (O, serialize_game (Some (set_o_player pid game)))
        else raise GameFull
    end.

(** A room code of exactly four digit characters. *)
Definition four_digits (gid : pystr) : Prop :=
  length gid = 4%nat ∧ Forall (λ c, char_isdigit c = true) gid.

End Handlers.

Definition get_game (game_id : pystr) : Handler (option Game) :=
  game ← get_game_or_none game_id;
  match game with
  | None => raise NotFound
  | Some _ => mret (serialize_game game)
  end.

(** The part of [make_move] after the checks: place the mark, evaluate the
    round, write the record and read it back. *)
Definition apply_move (game_id : pystr) (game : Game) (idx : Z) (m : mark)
  : Handler (option Game) :=
  board ← lift (py_setitem (board game) idx (Some m));
  winner ← lift (calculate_winner board);
  let draw := false in
  let score_x := score_x game in
  let score_o := score_o game in
  let '(draw, score_x, score_o) :=
    match winner with
    | Some w =>
        if bool_decide (w = X) then (draw, score_x + 1, score_o)
        else (draw, score_x, score_o + 1)
    | None =>
        if all_filled board then (true, score_x, score_o)
        else (draw, score_x, score_o)
    end in
  let x_is_next := negb (x_is_next game) in
  _ ← update_one game_id (set_move board x_is_next winner draw score_x score_o);
  updated ← get_game_or_none game_id;
  mret (serialize_game updated).

Definition make_move (game_id : pystr) (payload : MoveRequest)
  : Handler (option Game) :=
  game ← get_game_or_none game_id;
  match game with
  | None => raise NotFound
  | Some game =>
      match mark_of_role (role payload) with
      | None => raise InvalidRole
      | Some m =>
          if bool_decide (m = X)
             && bool_decide (x_player game ≠ Some (player_id payload))
          then raise (NotAuthorized X)
          else if bool_decide (m = O)
                  && bool_decide (o_player game ≠ Some (player_id payload))
          then raise (NotAuthorized O)
          else if truthy (winner game) || draw game then raise RoundFinished
          else if (bool_decide (m = X) && negb (x_is_next game))
                  || (bool_decide (m = O) && x_is_next game)
          then raise NotYourTurn
          else
            let idx := index payload in
            if (idx <? 0) || (8 <? idx) then raise InvalidIndex
            else
              c ← lift (py_getitem (board game) idx);
              match c with
              | Some _ => raise SquareFilled
              | None => apply_move game_id game idx m
              end
      end
  end.

Definition reset_round (game_id : pystr) : Handler (option Game) :=
  game ← get_game_or_none game_id;
  match game with
  | None => raise NotFound
  | Some game =>
      let next_starter_is_x := negb (x_starts game) in
      _ ← update_one game_id (set_reset_round next_starter_is_x);
      updated ← get_game_or_none game_id;
      mret (serialize_game updated)
  end.

Definition reset_scores (game_id : pystr) : Handler (option Game) :=
  game ← get_game_or_none game_id;
  match game with
  | None => raise NotFound
  | Some game =>
      _ ← update_one game_id (set_reset_scores (x_starts game));
      updated ← get_game_or_none game_id;
      mret (serialize_game updated)
  end.

(** ** The service as a transition system on the store *)

Inductive request :=
  | Join (payload : JoinRequest)
  | Fetch (game_id : pystr)
  | Move (game_id : pystr) (payload : MoveRequest)
  | ResetRound (game_id : pystr)
  | ResetScores (game_id : pystr).

Section Service.

Variable char_isdigit : N → bool.

(** The store one request leaves behind, accepted or not. *)
Definition serve (r : request) (st : gmap pystr Game) : gmap pystr Game :=
  match r with
  | Join payload => (join_game char_isdigit payload st).1
  | Fetch gid => (get_game gid st).1
  | Move gid payload => (make_move gid payload st).1
  | ResetRound gid => (reset_round gid st).1
  | ResetScores gid => (reset_scores gid st).1
  end.

(** The store after a sequence of requests, oldest first. *)
Definition serve_all (rs : list request) (st : gmap pystr Game)
  : gmap pystr Game :=
  foldl (λ st r, serve r st) st rs.

(** The stores the service can be in, starting with no game at all. *)
Definition reachable (st : gmap pystr Game) : Prop :=
  ∃ rs, serve_all rs ∅ = st.

End Service.

(** ** Winning lines, as the specification words them *)

(** A line is won by [m] when its three cells all hold [m]. *)
Definition line_won (b : list cell) (l : Z * Z * Z) (m : mark) : Prop :=
  let '(i, j, k) := l in
  b !! Z.to_nat i = Some (Some m)
  ∧ b !! Z.to_nat j = Some (Some m)
  ∧ b !! Z.to_nat k = Some (Some m).

Definition some_line_won (b : list cell) : Prop :=
  ∃ l m, l ∈ lines ∧ line_won b l m.

(** Every cell of the board is occupied. *)
Definition board_full (b : list cell) : Prop := Forall is_Some b.

(** The score counter of a mark. *)
Definition score (m : mark) (g : Game) : Z :=
  match m with X => score_x g | O => score_o g end.

(** The player bound to a mark. *)
Definition player (m : mark) (g : Game) : option pystr :=
  match m with X => x_player g | O => o_player g end.

(** The [board_length] validator of the schema, on a stored record. *)
Definition board_ok (g : Game) : Prop := length (board g) = 9%nat.

(** The three indices of a line are cells of a 9-cell board. *)
Definition line_in_range (l : Z * Z * Z) : Prop :=
  let '(i, j, k) := l in
  (0 ≤ i < 9) ∧ (0 ≤ j < 9) ∧ (0 ≤ k < 9).

(** The draw flag and the two scores [make_move] writes, given the winner it
    computed on the new board. *)
Definition draw_after (w : cell) (b : list cell) : bool :=
  match w with Some _ => false | None => all_filled b end.

Definition score_after (m : mark) (w : cell) (old : Z) : Z :=
  if bool_decide (w = Some m) then old + 1 else old.

(** The checks of a Move, in the words of the specification. *)
Definition role_valid (p : MoveRequest) (m : mark) : Prop :=
  mark_of_role (role p) = Some m.

Definition caller_bound (g : Game) (p : MoveRequest) (m : mark) : Prop :=
  player m g = Some (player_id p).

Definition round_open (g : Game) : Prop :=
  winner g = None ∧ draw g = false.

Definition on_turn (g : Game) (m : mark) : Prop :=
  x_is_next g = bool_decide (m = X).

Definition index_in_range (p : MoveRequest) : Prop :=
  0 ≤ index p ≤ 8.

Definition target_empty (g : Game) (p : MoveRequest) : Prop :=
  board g !! Z.to_nat (index p) = Some None.

(** What the specification says of the winner and of the scores after an
    accepted move from record [g] to record [g']. *)
Definition winner_settled (g g' : Game) : Prop :=
  (is_Some (winner g') ↔ some_line_won (board g'))
  ∧ (∀ w, winner g' = Some w →
       (∃ l, l ∈ lines ∧ line_won (board g') l w)
       ∧ score w g' = score w g + 1
       ∧ score (other w) g' = score (other w) g)
  ∧ (winner g' = None → score_x g' = score_x g ∧ score_o g' = score_o g).

(** What the specification says of the draw flag of the record [g'] an
    accepted move wrote. *)
Definition draw_settled (g' : Game) : Prop :=
  (draw g' = true ↔ board_full (board g') ∧ ¬ some_line_won (board g'))
  ∧ (is_Some (winner g') → draw g' = false)
  ∧ (¬ board_full (board g') → ¬ some_line_won (board g') →
     winner g' = None ∧ draw g' = false)
  ∧ (board_full (board g') → ¬ some_line_won (board g') →
     draw g' = true ∧ winner g' = None).

(** ** Sample data *)

(** The ASCII digits, on which every digit table agrees. *)
Definition ascii_digit (c : N) : bool := ((48 <=? c) && (c <=? 57))%N.

(** The room code 1234, a code with a letter, and three player identifiers. *)
Definition room_1234 : pystr := [49; 50; 51; 52]%N.
Definition room_12a : pystr := [49; 50; 97]%N.
Definition alice : pystr := [97; 108; 105; 99; 101]%N.
Definition bob : pystr := [98; 111; 98]%N.
Definition carol : pystr := [99; 97; 114; 111; 108]%N.

(** X holds cells 0 and 1, O holds cells 4 and 5, X is to move. *)
Definition game_x_to_win : Game :=
  {| game_id := room_1234;
     board := [Some X; Some X; None; None; Some O; Some O; None; None; None];
     x_starts := true; x_is_next := true;
     x_player := Some alice; o_player := Some bob;
     winner := None; draw := false;
     score_x := 3; score_o := 1 |}.

(** Only cell 8 is free and no mark there completes a line for X. *)
Definition game_last_cell : Game :=
  {| game_id := room_1234;
     board := [Some X; Some O; Some X;
               Some X; Some O; Some O;
               Some O; Some X; None];
     x_starts := true; x_is_next := true;
     x_player := Some alice; o_player := Some bob;
     winner := None; draw := false;
     score_x := 3; score_o := 1 |}.

(** ** Record transitions *)

(** The room code a request addresses. *)
Definition target (r : request) : pystr :=
  match r with
  | Join payload => join_game_id payload
  | Fetch gid => gid
  | Move gid _ => gid
  | ResetRound gid => gid
  | ResetScores gid => gid
  end.

(** The record [join_game] inserts for a new room: the schema defaults with
    the caller in the X seat. *)
Definition fresh_game (gid pid : pystr) : Game :=
  {| game_id := gid; board := empty_board;
     x_starts := true; x_is_next := true;
     x_player := Some pid; o_player := None;
     winner := None; draw := false;
     score_x := 0; score_o := 0 |}.

(** The writes the handlers make to an existing record, each with the
    conditions under which the handler reaches it. *)
Inductive record_step : request → Game → Game → Prop :=
  | step_bind_x gid pid g :
      x_player g ≠ Some pid → o_player g ≠ Some pid →
      str_truthy (x_player g) = false →
      record_step (Join (mkJoinRequest gid pid)) g (set_x_player pid g)
  | step_bind_o gid pid g :
      x_player g ≠ Some pid → o_player g ≠ Some pid →
      str_truthy (x_player g) = true → str_truthy (o_player g) = false →
      record_step (Join (mkJoinRequest gid pid)) g (set_o_player pid g)
  | step_move gid p g m b' w :
      role_valid p m → caller_bound g p m → round_open g → on_turn g m →
      index_in_range p →
      py_getitem (board g) (index p) = Val None →
      py_setitem (board g) (index p) (Some m) = Val b' →
      calculate_winner b' = Val w →
      record_step (Move gid p) g
        (set_move b' (negb (x_is_next g)) w (draw_after w b')
           (score_after X w (score_x g)) (score_after O w (score_o g)) g)
  | step_reset_round gid g :
      record_step (ResetRound gid) g (set_reset_round (negb (x_starts g)) g)
  | step_reset_scores gid g :
      record_step (ResetScores gid) g (set_reset_scores (x_starts g) g).

(** The role token of a mark. *)
Definition role_of_mark (m : mark) : pystr :=
  match m with X => str_X | O => str_O end.

(** The number of cells of a board that hold the mark [m]. *)
Fixpoint count_mark (m : mark) (b : list cell) : nat :=
  match b with
  | [] => 0
  | c :: rest =>
      (if bool_decide (c = Some m) then 1 else 0) + count_mark m rest
  end.

(** The board with the two marks exchanged. *)
Definition swap_marks (b : list cell) : list cell :=
  (λ c : cell, other <$> c) <$> b.

(** The result of a Python computation under a function. *)
Definition py_map {A B} (f : A → B) (r : py A) : py B :=
  match r with
  | Val a => Val (f a)
  | Raise e => Raise e
  end.

(** The marks of a round agree with the turn flag: with the flag on the
    starter both marks have been placed equally often, otherwise the starter
    is one ahead. *)
Definition marks_balanced (g : Game) : Prop :=
  let starter := if x_starts g then X else O in
  count_mark starter (board g)
  = (count_mark (other starter) (board g)
     + (if bool_decide (x_is_next g = x_starts g) then 0 else 1))%nat.

(** The flags of a record say what its board shows. *)
Definition flags_match_board (g : Game) : Prop :=
  (∀ w, winner g = Some w → ∃ l, l ∈ lines ∧ line_won (board g) l w)
  ∧ (is_Some (winner g) ↔ some_line_won (board g))
  ∧ (draw g = true ↔ board_full (board g) ∧ ¬ some_line_won (board g)).

(** A response that is not an uncaught exception. *)
Definition no_server_error {A} (o : outcome A) : Prop :=
  match o with
  | Err (ServerError _) => False
  | _ => True
  end.

(** Two joins and three moves in room 1234, and the record they leave. *)
Definition played_requests : list request :=
  [ Join (mkJoinRequest room_1234 alice);
    Join (mkJoinRequest room_1234 bob);
    Move room_1234 (mkMoveRequest 0 str_X alice);
    Move room_1234 (mkMoveRequest 4 str_O bob);
    Move room_1234 (mkMoveRequest 1 str_X alice) ].

Definition played_game : Game :=
  {| game_id := room_1234;
     board := [Some X; Some X; None; None; Some O; None; None; None; None];
     x_starts := true; x_is_next := false;
     x_player := Some alice; o_player := Some bob;
     winner := None; draw := false;
     score_x := 0; score_o := 0 |}.

(** ** Proof tactics *)

(** Unfold the monad down to functions on the store. *)
Ltac run_handler :=
  unfold mbind, mret, handler_mbind, handler_mret, h_bind, h_ret, raise,
    get_game_or_none, update_one, insert_one in *;
  cbn beta iota in *.

(** An error branch: the store comes back as it was. *)
Ltac no_write := cbn [lift]; run_handler; intros ?; by simplify_eq.

(** * Properties *)

(** ** Python list access *)

Lemma py_getitem_in_range {A} (l : list A) (i : Z) :
  0 ≤ i < Z.of_nat (length l) →
  ∃ a, l !! Z.to_nat i = Some a ∧ py_getitem l i = Val a.
Proof.
  intros Hi. unfold py_getitem.
  destruct (Z.ltb_spec i 0) as [?|_]; [lia|].
  destruct (Z.ltb_spec i 0) as [?|_]; [lia|].
  destruct (Z.leb_spec (Z.of_nat (length l)) i) as [?|_]; [lia|].
  simpl. destruct (lookup_lt_is_Some_2 l (Z.to_nat i)) as [a Ha]; [lia|].
  exists a. by rewrite Ha.
Qed.

Lemma py_getitem_above {A} (l : list A) (i : Z) :
  Z.of_nat (length l) ≤ i → py_getitem l i = Raise IndexError.
Proof.
  intros Hi. unfold py_getitem.
  destruct (Z.ltb_spec i 0) as [?|_]; [lia|].
  destruct (Z.ltb_spec i 0) as [?|_]; [lia|].
  destruct (Z.leb_spec (Z.of_nat (length l)) i) as [_|?]; [done|lia].
Qed.

Lemma py_setitem_in_range {A} (l : list A) (i : Z) (v : A) :
  0 ≤ i < Z.of_nat (length l) →
  py_setitem l i v = Val (<[Z.to_nat i := v]> l).
Proof.
  intros Hi. unfold py_setitem.
  destruct (Z.ltb_spec i 0) as [?|_]; [lia|].
  destruct (Z.ltb_spec i 0) as [?|_]; [lia|].
  destruct (Z.leb_spec (Z.of_nat (length l)) i) as [?|_]; [lia|done].
Qed.

Lemma py_setitem_Val_length {A} (l l' : list A) (i : Z) (v : A) :
  py_setitem l i v = Val l' → length l' = length l.
Proof.
  unfold py_setitem.
  destruct (_ || _); [done|]. intros [= <-]. apply length_insert.
Qed.

(** ** calculate_winner on a 9-cell board *)

Lemma lines_in_range : Forall line_in_range lines.
Proof. unfold lines, line_in_range. repeat constructor; lia. Qed.

Lemma line_test_spec (b : list cell) (i j k : Z) :
  length b = 9%nat → line_in_range (i, j, k) →
  ∃ t : bool, line_test b i j k = Val t
    ∧ (t = true ↔ ∃ m, line_won b (i, j, k) m)
    ∧ (t = true → ∃ m, py_getitem b i = Val (Some m) ∧ line_won b (i, j, k) m).
Proof.
  intros Hlen (Hi & Hj & Hk).
  destruct (py_getitem_in_range b i) as (ci & Hci & Gi); [lia|].
  destruct (py_getitem_in_range b j) as (cj & Hcj & Gj); [lia|].
  destruct (py_getitem_in_range b k) as (ck & Hck & Gk); [lia|].
  unfold line_test, line_won. rewrite Gi. cbn. rewrite Hci, Hcj, Hck.
  destruct ci as [mi|]; cbn.
  - rewrite Gj. cbn. case_bool_decide as Hij; cbn.
    + rewrite Gk. cbn. subst cj. case_bool_decide as Hjk.
      * subst ck. exists true. split_and!; [done| |].
        -- split; [intros _; by exists mi|done].
        -- intros _. by exists mi.
      * exists false. split_and!; [done| |done].
        split; [done|]. intros (m & ? & ? & ?). congruence.
    + exists false. split_and!; [done| |done].
      split; [done|]. intros (m & ? & ? & ?). congruence.
  - exists false. split_and!; [done| |done].
    split; [done|]. intros (m & ? & ? & ?). congruence.
Qed.

Lemma calculate_winner_from_spec (b : list cell) (ls : list (Z * Z * Z)) :
  length b = 9%nat → Forall line_in_range ls →
  ∃ w, calculate_winner_from b ls = Val w
    ∧ (∀ m, w = Some m → ∃ l, l ∈ ls ∧ line_won b l m)
    ∧ (w = None → ∀ l m, l ∈ ls → ¬ line_won b l m).
Proof.
  intros Hlen. induction 1 as [|[[i j] k] rest Hl Hrest IH].
  - exists None. split_and!; [done|done|].
    intros _ l m Hin. by apply elem_of_nil in Hin.
  - destruct (line_test_spec b i j k Hlen Hl) as (t & Ht & Hiff & Hget).
    cbn [calculate_winner_from]. rewrite Ht. cbn. destruct t.
    + destruct Hget as (m & Gi & Hwon); [done|].
      exists (Some m). split_and!; [done| |done].
      intros m' [= <-]. exists (i, j, k). split; [left|done].
    + destruct IH as (w & Hw & Hsome & Hnone).
      exists w. split_and!; [done| |].
      * intros m Hm. destruct (Hsome m Hm) as (l & Hin & Hwon).
        exists l. split; [by right|done].
      * intros -> l m Hin Hwon. apply elem_of_cons in Hin as [->|Hin].
        -- assert (false = true) by (apply Hiff; eauto). done.
        -- by eapply Hnone.
Qed.

Lemma calculate_winner_spec (b : list cell) :
  length b = 9%nat →
  ∃ w, calculate_winner b = Val w
    ∧ (∀ m, w = Some m → ∃ l, l ∈ lines ∧ line_won b l m)
    ∧ (is_Some w ↔ some_line_won b).
Proof.
  intros Hlen.
  destruct (calculate_winner_from_spec b lines Hlen lines_in_range)
    as (w & Hw & Hsome & Hnone).
  exists w. split_and!; [done|done|]. split.
  - intros [m ->]. destruct (Hsome m eq_refl) as (l & ? & ?). by exists l, m.
  - intros (l & m & Hin & Hwon). destruct w; [done|].
    exfalso. by eapply Hnone.
Qed.

Lemma all_filled_spec (b : list cell) :
  all_filled b = true ↔ board_full b.
Proof.
  unfold all_filled, board_full. rewrite forallb_forall, Forall_forall.
  split; intros H c Hc.
  - apply list_elem_of_In in Hc. specialize (H c Hc). by destruct c.
  - apply list_elem_of_In in Hc. by destruct (H c Hc) as [? ->].
Qed.

(** ** Running the handlers *)

Lemma serialize_game_Some (g : Game) : serialize_game (Some g) = Some g.
Proof. by destruct g. Qed.

Lemma serialize_game_id (og : option Game) : serialize_game og = og.
Proof. destruct og as [g|]; [apply serialize_game_Some|done]. Qed.

Lemma mark_of_role_X (r : pystr) : mark_of_role r = Some X ↔ r = str_X.
Proof.
  unfold mark_of_role. repeat case_bool_decide; split; intros; simplify_eq; done.
Qed.

Lemma mark_of_role_O (r : pystr) : mark_of_role r = Some O ↔ r = str_O.
Proof.
  unfold mark_of_role. repeat case_bool_decide; split; intros; simplify_eq; done.
Qed.

Lemma mark_of_role_None (r : pystr) :
  mark_of_role r = None ↔ r ≠ str_X ∧ r ≠ str_O.
Proof.
  unfold mark_of_role. repeat case_bool_decide; split;
    try done; try (intros [? ?]; done); by intros _.
Qed.
Lemma apply_move_run (gid : pystr) (g : Game) (idx : Z) (m : mark)
    (st : gmap pystr Game) :
  st !! gid = Some g → 0 ≤ idx ≤ 8 → board_ok g →
  ∃ w g',
    calculate_winner (<[Z.to_nat idx := Some m]> (board g)) = Val w
    ∧ g' = set_move (<[Z.to_nat idx := Some m]> (board g))
             (negb (x_is_next g)) w
             (draw_after w (<[Z.to_nat idx := Some m]> (board g)))
             (score_after X w (score_x g)) (score_after O w (score_o g)) g
    ∧ apply_move gid g idx m st = (<[gid := g']> st, Ok (Some g')).
Proof.
  intros Hg Hidx Hlen. unfold board_ok in Hlen.
  set (b' := <[Z.to_nat idx := Some m]> (board g)).
  assert (length b' = 9%nat) as Hlen' by (unfold b'; by rewrite length_insert).
  destruct (calculate_winner_spec b' Hlen') as (w & Hw & _).
  exists w. eexists. split; [done|]. split; [reflexivity|].
  unfold apply_move. rewrite py_setitem_in_range by lia.
  fold b'. cbn [lift]. run_handler. rewrite Hw. cbn [lift]. run_handler.
  assert (∀ (f : Game → Game), alter f gid st = <[gid := f g]> st) as Halt.
  { intros f. apply map_eq. intros k. rewrite lookup_alter, lookup_insert.
    case_decide; subst; by rewrite ?Hg. }
  unfold draw_after, score_after.
  destruct w as [[|]|]; repeat case_bool_decide; simplify_eq;
    try destruct (all_filled b'); cbn;
    by rewrite Halt, lookup_insert_eq, serialize_game_Some.
Qed.

(** What an accepted move went through. *)
Lemma make_move_Ok_inv (gid : pystr) (p : MoveRequest)
    (st st' : gmap pystr Game) (resp : option Game) :
  make_move gid p st = (st', Ok resp) →
  ∃ g m b' w g',
    st !! gid = Some g
    ∧ role_valid p m ∧ caller_bound g p m ∧ round_open g ∧ on_turn g m
    ∧ index_in_range p
    ∧ py_getitem (board g) (index p) = Val None
    ∧ py_setitem (board g) (index p) (Some m) = Val b'
    ∧ calculate_winner b' = Val w
    ∧ g' = set_move b' (negb (x_is_next g)) w (draw_after w b')
             (score_after X w (score_x g)) (score_after O w (score_o g)) g
    ∧ st' = <[gid := g']> st
    ∧ resp = Some g'.
Proof.
  unfold make_move. run_handler.
  destruct (st !! gid) as [g|] eqn:Hg; [|done].
  destruct (mark_of_role (role p)) as [m|] eqn:Hm; [|done].
  destruct (bool_decide (m = X) && _) eqn:Hax; [by cbv beta|].
  destruct (bool_decide (m = O) && _) eqn:Hao; [by cbv beta|].
  destruct (truthy (winner g) || draw g) eqn:Hfin; [by cbv beta|].
  destruct (bool_decide (m = X) && negb _ || _) eqn:Hturn; [by cbv beta|].
  destruct ((index p <? 0) || _) eqn:Hidx; [by cbv beta|].
  destruct (py_getitem (board g) (index p)) as [c|e] eqn:Hget; [|by cbn].
  cbn [lift]. run_handler. destruct c as [c|]; [done|].
  unfold apply_move.
  destruct (py_setitem (board g) (index p) (Some m)) as [b'|e] eqn:Hset;
    [|by cbn].
  cbn [lift]. run_handler.
  destruct (calculate_winner b') as [w|e] eqn:Hw; [|by cbn].
  cbn [lift]. run_handler.
  assert (∀ (f : Game → Game), alter f gid st = <[gid := f g]> st) as Halt.
  { intros f. apply map_eq. intros k. rewrite lookup_alter, lookup_insert.
    case_decide; subst; by rewrite ?Hg. }
  intros Hres.
  apply orb_false_iff in Hfin as [Hwin Hdraw].
  apply orb_false_iff in Hidx as [Hlo Hhi].
  apply Z.ltb_ge in Hlo, Hhi.
  pose (g' := set_move b' (negb (x_is_next g)) w (draw_after w b')
                (score_after X w (score_x g)) (score_after O w (score_o g)) g).
  assert (st' = <[gid := g']> st ∧ resp = Some g') as [-> ->].
  { unfold g', draw_after, score_after.
    destruct w as [[|]|]; repeat case_bool_decide; try congruence;
      try destruct (all_filled b'); cbn in Hres;
      rewrite Halt, lookup_insert_eq, serialize_game_Some in Hres;
      by simplify_eq. }
  exists g, m, b', w, g'.
  assert (caller_bound g p m) as Hbound.
  { unfold caller_bound. destruct m; cbn in *.
    - apply andb_false_iff in Hax as [Hax|Hax]; [done|].
      apply bool_decide_eq_false in Hax. by apply dec_stable.
    - apply andb_false_iff in Hao as [Hao|Hao]; [done|].
      apply bool_decide_eq_false in Hao. by apply dec_stable. }
  assert (round_open g) as Hopen.
  { split; [|done]. by destruct (winner g). }
  assert (on_turn g m) as Hon.
  { unfold on_turn. clear -Hturn.
    destruct m, (x_is_next g); repeat case_bool_decide; done. }
  by split_and!.
Qed.

(** The checks of [make_move] one by one: each fires when the ones before
    it pass, whatever the later ones would say. *)
Section MoveChecks.
Context (gid : pystr) (p : MoveRequest) (st : gmap pystr Game).

Lemma make_move_not_found :
  st !! gid = None → make_move gid p st = (st, Err NotFound).
Proof. intros Hg. unfold make_move. run_handler. by rewrite Hg. Qed.

Context (g : Game) (Hg : st !! gid = Some g).

Lemma make_move_invalid_role :
  role p ≠ str_X → role p ≠ str_O →
  make_move gid p st = (st, Err InvalidRole).
Proof using Hg.
  intros HX HO. unfold make_move. run_handler. rewrite Hg.
  by rewrite (proj2 (mark_of_role_None (role p))).
Qed.

Context (m : mark) (Hm : role_valid p m).

Lemma make_move_unauthorized :
  ¬ caller_bound g p m →
  make_move gid p st = (st, Err (NotAuthorized m)).
Proof using Hg Hm.
  intros Hb. unfold make_move. run_handler. rewrite Hg, Hm.
  unfold caller_bound in Hb. destruct m; cbn in Hb.
  - rewrite (bool_decide_eq_true_2 (X = X)) by done.
    by rewrite (bool_decide_eq_true_2 (x_player g ≠ _)) by done.
  - rewrite (bool_decide_eq_false_2 (O = X)) by done.
    rewrite (bool_decide_eq_true_2 (O = O)) by done.
    by rewrite (bool_decide_eq_true_2 (o_player g ≠ _)) by done.
Qed.

Context (Hb : caller_bound g p m).

Lemma make_move_authorized_step :
  bool_decide (m = X) && bool_decide (x_player g ≠ Some (player_id p))
    = false
  ∧ bool_decide (m = O) && bool_decide (o_player g ≠ Some (player_id p))
    = false.
Proof using Hb.
  clear -Hb. unfold caller_bound in Hb.
  destruct m; cbn in Hb; split; repeat case_bool_decide; done.
Qed.

Lemma make_move_round_finished :
  ¬ round_open g →
  make_move gid p st = (st, Err RoundFinished).
Proof using Hg Hm Hb.
  intros Hopen. unfold make_move. run_handler. rewrite Hg, Hm.
  destruct make_move_authorized_step as [-> ->].
  destruct (truthy (winner g) || draw g) eqn:Hfin; [done|].
  apply orb_false_iff in Hfin as [Hw Hd]. destruct Hopen.
  split; [by destruct (winner g)|done].
Qed.

Context (Hopen : round_open g).

Lemma make_move_open_step : truthy (winner g) || draw g = false.
Proof using Hopen. clear -Hopen. destruct Hopen as [-> ->]. done. Qed.

Lemma make_move_wrong_turn :
  ¬ on_turn g m →
  make_move gid p st = (st, Err NotYourTurn).
Proof using Hg Hm Hb Hopen.
  intros Hturn. unfold make_move. run_handler. rewrite Hg, Hm.
  destruct make_move_authorized_step as [-> ->].
  rewrite make_move_open_step. unfold on_turn in Hturn.
  destruct m, (x_is_next g); repeat case_bool_decide; done.
Qed.

Context (Hturn : on_turn g m).

Lemma make_move_turn_step :
  bool_decide (m = X) && negb (x_is_next g)
    || bool_decide (m = O) && x_is_next g = false.
Proof using Hturn.
  clear -Hturn. unfold on_turn in Hturn.
  destruct m, (x_is_next g); repeat case_bool_decide; done.
Qed.

Lemma make_move_invalid_index :
  ¬ index_in_range p →
  make_move gid p st = (st, Err InvalidIndex).
Proof using Hg Hm Hb Hopen Hturn.
  intros Hidx. unfold make_move. run_handler. rewrite Hg, Hm.
  destruct make_move_authorized_step as [-> ->].
  rewrite make_move_open_step, make_move_turn_step.
  unfold index_in_range in Hidx.
  destruct (Z.ltb_spec (index p) 0), (Z.ltb_spec 8 (index p)); cbn;
    try done; lia.
Qed.

Context (Hidx : index_in_range p).

Lemma make_move_index_step : (index p <? 0) || (8 <? index p) = false.
Proof using Hidx.
  clear -Hidx. unfold index_in_range in Hidx.
  destruct (Z.ltb_spec (index p) 0), (Z.ltb_spec 8 (index p)); cbn;
    try done; lia.
Qed.

Lemma make_move_square_filled (c : mark) :
  board g !! Z.to_nat (index p) = Some (Some c) →
  make_move gid p st = (st, Err SquareFilled).
Proof using Hg Hm Hb Hopen Hturn Hidx.
  intros Hc. unfold make_move. run_handler. rewrite Hg, Hm.
  destruct make_move_authorized_step as [-> ->].
  rewrite make_move_open_step, make_move_turn_step, make_move_index_step.
  unfold index_in_range in Hidx.
  destruct (py_getitem_in_range (board g) (index p)) as (a & Ha & ->).
  { apply lookup_lt_Some in Hc. lia. }
  by simplify_eq.
Qed.

Lemma make_move_accepted :
  board_ok g → target_empty g p →
  ∃ w g',
    calculate_winner (<[Z.to_nat (index p) := Some m]> (board g)) = Val w
    ∧ g' = set_move (<[Z.to_nat (index p) := Some m]> (board g))
             (negb (x_is_next g)) w
             (draw_after w (<[Z.to_nat (index p) := Some m]> (board g)))
             (score_after X w (score_x g)) (score_after O w (score_o g)) g
    ∧ make_move gid p st = (<[gid := g']> st, Ok (Some g')).
Proof using Hg Hm Hb Hopen Hturn Hidx.
  intros Hlen Hc.
  destruct (apply_move_run gid g (index p) m st Hg Hidx Hlen)
    as (w & g' & Hw & Hg' & Hrun).
  exists w, g'. split_and!; [done|done|].
  unfold make_move. run_handler. rewrite Hg, Hm.
  destruct make_move_authorized_step as [-> ->].
  rewrite make_move_open_step, make_move_turn_step, make_move_index_step.
  unfold index_in_range in Hidx. unfold board_ok in Hlen.
  destruct (py_getitem_in_range (board g) (index p)) as (a & Ha & ->);
    [lia|].
  unfold target_empty in Hc. by simplify_eq.
Qed.

End MoveChecks.

(** ** A rejected request writes nothing *)

Lemma alter_existing (f : Game → Game) (gid : pystr) (g : Game)
    (st : gmap pystr Game) :
  st !! gid = Some g → alter f gid st = <[gid := f g]> st.
Proof.
  intros Hg. apply map_eq. intros k. rewrite lookup_alter, lookup_insert.
  case_decide; subst; by rewrite ?Hg.
Qed.

Lemma make_move_Err_store (gid : pystr) (p : MoveRequest)
    (st st' : gmap pystr Game) (e : http_error) :
  make_move gid p st = (st', Err e) → st' = st.
Proof.
  unfold make_move. run_handler.
  destruct (st !! gid) as [g|] eqn:Hg; [|no_write].
  destruct (mark_of_role (role p)) as [m|]; [|no_write].
  destruct (bool_decide (m = X) && _); [no_write|].
  destruct (bool_decide (m = O) && _); [no_write|].
  destruct (truthy (winner g) || draw g); [no_write|].
  destruct (bool_decide (m = X) && negb _ || _); [no_write|].
  destruct ((index p <? 0) || _); [no_write|].
  destruct (py_getitem (board g) (index p)) as [c|?]; [|no_write].
  cbn [lift]. run_handler. destruct c as [c|]; [no_write|].
  unfold apply_move.
  destruct (py_setitem (board g) (index p) (Some m)) as [b'|?]; [|no_write].
  cbn [lift]. run_handler.
  destruct (calculate_winner b') as [w|?]; [|no_write].
  cbn [lift]. run_handler.
  destruct w as [w|]; [destruct (bool_decide (w = X))|destruct (all_filled b')];
    cbn; intros ?; by simplify_eq.
Qed.

Lemma get_game_run (gid : pystr) (st : gmap pystr Game) :
  get_game gid st
  = (st, match st !! gid with Some g => Ok (Some g) | None => Err NotFound end).
Proof.
  unfold get_game. run_handler. destruct (st !! gid) as [g|]; [|done].
  by rewrite serialize_game_Some.
Qed.

Lemma reset_round_run (gid : pystr) (st : gmap pystr Game) :
  reset_round gid st
  = match st !! gid with
    | Some g =>
        let g' := set_reset_round (negb (x_starts g)) g in
        (<[gid := g']> st, Ok (Some g'))
    | None => (st, Err NotFound)
    end.
Proof.
  unfold reset_round. run_handler. destruct (st !! gid) as [g|] eqn:Hg; [|done].
  cbn. rewrite (alter_existing _ gid g st Hg).
  by rewrite lookup_insert_eq, serialize_game_Some.
Qed.

Lemma reset_scores_run (gid : pystr) (st : gmap pystr Game) :
  reset_scores gid st
  = match st !! gid with
    | Some g =>
        let g' := set_reset_scores (x_starts g) g in
        (<[gid := g']> st, Ok (Some g'))
    | None => (st, Err NotFound)
    end.
Proof.
  unfold reset_scores. run_handler.
  destruct (st !! gid) as [g|] eqn:Hg; [|done].
  cbn. rewrite (alter_existing _ gid g st Hg).
  by rewrite lookup_insert_eq, serialize_game_Some.
Qed.

(** ** Join *)

Section Join.
Variable char_isdigit : N → bool.

Lemma valid_code_spec (gid : pystr) :
  valid_code char_isdigit gid = true ↔ four_digits char_isdigit gid.
Proof.
  unfold valid_code, four_digits, str_isdigit. split.
  - intros H. destruct gid as [|c gid]; [done|].
    apply andb_prop in H as [H Hd]. apply andb_prop in H as [_ Hl].
    apply bool_decide_eq_true in Hl. split; [done|].
    apply Forall_forall. intros x Hx. apply list_elem_of_In in Hx.
    by apply (proj1 (forallb_forall _ _) Hd).
  - intros [Hl Hd]. destruct gid as [|c gid]; [done|].
    rewrite bool_decide_eq_true_2 by done. cbn [andb].
    apply forallb_forall. intros x Hx. apply list_elem_of_In in Hx.
    by apply (proj1 (Forall_forall _ _) Hd).
Qed.

Lemma join_game_malformed (payload : JoinRequest) (st : gmap pystr Game) :
  ¬ four_digits char_isdigit (join_game_id payload) →
  join_game char_isdigit payload st = (st, Err BadGameId).
Proof.
  intros Hbad. unfold join_game.
  destruct (valid_code char_isdigit (join_game_id payload)) eqn:Hv; [|done].
  by apply valid_code_spec in Hv.
Qed.

(** The outcome of a Join on a well-formed code, by cases on the record. *)
Lemma join_game_run (payload : JoinRequest) (st : gmap pystr Game) :
  four_digits char_isdigit (join_game_id payload) →
  let gid := join_game_id payload in
  let pid := join_player_id payload in
  join_game char_isdigit payload st
  = match st !! gid with
    | None =>
        let g := {| game_id := gid; board := empty_board;
                    x_starts := true; x_is_next := true;
                    x_player := Some pid; o_player := None;
                    winner := None; draw := false;
                    score_x := 0; score_o := 0 |} in
        (<[gid := g]> st, Ok (X, Some g))
    | Some g =>
        if bool_decide (x_player g = Some pid) then (st, Ok (X, Some g))
        else if bool_decide (o_player g = Some pid) then (st, Ok (O, Some g))
        else if negb (str_truthy (x_player g)) then
          (<[gid := set_x_player pid g]> st, Ok (X, Some (set_x_player pid g)))
        else if negb (str_truthy (o_player g)) then
          (<[gid := set_o_player pid g]> st, Ok (O, Some (set_o_player pid g)))
        else (st, Err GameFull)
    end.
Proof.
  intros Hok gid pid. unfold join_game. fold gid pid.
  rewrite (proj2 (valid_code_spec gid) Hok). cbn [negb]. run_handler.
  destruct (st !! gid) as [g|] eqn:Hg.
  - rewrite !serialize_game_Some.
    repeat case_bool_decide; try done.
    destruct (str_truthy (x_player g)); cbn.
    + destruct (str_truthy (o_player g)); cbn; [done|].
      by rewrite (alter_existing _ gid g st Hg).
    + by rewrite (alter_existing _ gid g st Hg).
  - unfold Game_new. destruct Hok as [Hl _].
    rewrite bool_decide_eq_true_2 by done. cbn. done.
Qed.

Lemma join_game_Err_store (payload : JoinRequest)
    (st st' : gmap pystr Game) (e : http_error) :
  join_game char_isdigit payload st = (st', Err e) → st' = st.
Proof.
  destruct (decide (four_digits char_isdigit (join_game_id payload))) as [Hok|Hbad].
  - rewrite (join_game_run payload st Hok). cbn zeta.
    repeat case_match; intros ?; by simplify_eq.
  - rewrite (join_game_malformed payload st Hbad). intros ?; by simplify_eq.
Qed.

End Join.

Section ServiceProps.
Variable char_isdigit : N → bool.


(** A property of records that every write of every handler establishes or
    keeps holds of every record of every reachable char_isdigit store. *)
Lemma serve_preserves (P : Game → Prop) :
  (∀ gid pid, P {| game_id := gid; board := empty_board;
                   x_starts := true; x_is_next := true;
                   x_player := Some pid; o_player := None;
                   winner := None; draw := false;
                   score_x := 0; score_o := 0 |}) →
  (∀ g pid, P g → P (set_x_player pid g)) →
  (∀ g pid, P g → P (set_o_player pid g)) →
  (∀ g idx m b' w,
      P g → py_setitem (board g) idx (Some m) = Val b' →
      calculate_winner b' = Val w →
      P (set_move b' (negb (x_is_next g)) w (draw_after w b')
           (score_after X w (score_x g)) (score_after O w (score_o g)) g)) →
  (∀ g, P g → P (set_reset_round (negb (x_starts g)) g)) →
  (∀ g, P g → P (set_reset_scores (x_starts g) g)) →
  ∀ r st, map_Forall (λ _, P) st → map_Forall (λ _, P) (serve char_isdigit r st).
Proof.
  intros Hnew Hx Ho Hmove Hround Hscores r st Hst.
  destruct r as [payload|gid|gid payload|gid|gid]; cbn [serve].
  - destruct (decide (four_digits char_isdigit (join_game_id payload)))
      as [Hok|Hbad].
    + rewrite (join_game_run char_isdigit payload st Hok). cbn zeta.
      destruct (st !! join_game_id payload) as [g|] eqn:Hg.
      * pose proof (Hst _ _ Hg) as HPg. cbn beta in HPg.
        repeat case_match; cbn [fst]; try done;
          apply map_Forall_insert_2; auto.
      * cbn [fst]. apply map_Forall_insert_2; auto.
    + by rewrite (join_game_malformed char_isdigit payload st Hbad).
  - by rewrite get_game_run.
  - destruct (make_move gid payload st) as [st' [resp|e]] eqn:Hrun.
    + apply make_move_Ok_inv in Hrun
        as (g & m & b' & w & g' & Hg & _ & _ & _ & _ & _ & _ & Hset & Hw
            & -> & -> & _).
      cbn [fst]. apply map_Forall_insert_2; [|done].
      eapply Hmove; [exact (Hst _ _ Hg)|done|done].
    + apply make_move_Err_store in Hrun as ->. done.
  - rewrite reset_round_run. destruct (st !! gid) as [g|] eqn:Hg; [|done].
    cbn. apply map_Forall_insert_2; [|done]. apply Hround, (Hst _ _ Hg).
  - rewrite reset_scores_run. destruct (st !! gid) as [g|] eqn:Hg; [|done].
    cbn. apply map_Forall_insert_2; [|done]. apply Hscores, (Hst _ _ Hg).
Qed.

Lemma reachable_invariant (P : Game → Prop) :
  (∀ r st, map_Forall (λ _, P) st → map_Forall (λ _, P) (serve char_isdigit r st)) →
  ∀ st, reachable char_isdigit st → map_Forall (λ _, P) st.
Proof.
  intros Hstep st [rs <-]. unfold serve_all.
  induction rs as [|r rs IH] using rev_ind.
  - apply map_Forall_empty.
  - rewrite foldl_app. cbn. by apply Hstep.
Qed.

(** X21. Every stored board has nine cells. *)
Lemma reachable_board_ok (st : gmap pystr Game) (gid : pystr) (g : Game) :
  reachable char_isdigit st → st !! gid = Some g → board_ok g.
Proof.
  intros Hreach Hg.
  refine (reachable_invariant board_ok _ st Hreach gid g Hg).
  apply serve_preserves; unfold board_ok; cbn; try done.
  intros g0 idx m b' w Hlen Hset _.
  by rewrite (py_setitem_Val_length _ _ _ _ Hset).
Qed.

End ServiceProps.


(** ** The outcome of an accepted move *)

Lemma score_after_spec (g : Game) (b' : list cell) (w : cell) (next d : bool) :
  let g' := set_move b' next w d (score_after X w (score_x g))
              (score_after O w (score_o g)) g in
  (∀ m, w = Some m →
     score m g' = score m g + 1 ∧ score (other m) g' = score (other m) g)
  ∧ (w = None → score_x g' = score_x g ∧ score_o g' = score_o g).
Proof.
  cbn zeta. unfold score_after. split.
  - intros m ->. destruct m; cbn; repeat case_bool_decide; done.
  - intros ->. cbn. repeat case_bool_decide; done.
Qed.

(** A line won on the board after a mark was placed was already won before,
    or is won by the mark just placed. *)
Lemma line_won_insert (b : list cell) (i : nat) (m w : mark) (l : Z * Z * Z) :
  line_won (<[i := Some m]> b) l w → w = m ∨ line_won b l w.
Proof.
  destruct (decide (w = m)) as [->|Hne]; [by left|right].
  destruct l as [[a j] k]. unfold line_won in *.
  assert (∀ n, <[i := Some m]> b !! n = Some (Some w) → b !! n = Some (Some w))
    as Hold.
  { intros n Hn. destruct (decide (i = n)) as [->|Hin].
    - apply list_lookup_insert_Some in Hn as [(_ & ? & _)|(? & _)];
        [congruence|done].
    - by rewrite list_lookup_insert_ne in Hn. }
  destruct H as (? & ? & ?). split_and!; by apply Hold.
Qed.

Lemma accepted_move_outcome (gid : pystr) (p : MoveRequest)
    (st st' : gmap pystr Game) (resp : option Game) (g : Game) :
  st !! gid = Some g → board_ok g →
  make_move gid p st = (st', Ok resp) →
  ∃ m w g',
    role_valid p m ∧ target_empty g p ∧ index_in_range p
    ∧ st' = <[gid := g']> st ∧ resp = Some g'
    ∧ g' = set_move (<[Z.to_nat (index p) := Some m]> (board g))
             (negb (x_is_next g)) w
             (draw_after w (<[Z.to_nat (index p) := Some m]> (board g)))
             (score_after X w (score_x g)) (score_after O w (score_o g)) g
    ∧ (∀ m', w = Some m' → ∃ l, l ∈ lines ∧ line_won (board g') l m')
    ∧ (is_Some w ↔ some_line_won (board g')).
Proof.
  intros Hg Hlen Hrun.
  apply make_move_Ok_inv in Hrun
    as (g0 & m & b' & w & g' & Hg0 & Hm & _ & _ & _ & Hidx & Hget & Hset & Hw
        & Hg' & -> & ->).
  assert (g0 = g) as -> by congruence.
  unfold board_ok in Hlen. unfold index_in_range in Hidx.
  rewrite py_setitem_in_range in Hset by lia. injection Hset as <-.
  destruct (py_getitem_in_range (board g) (index p)) as (c & Hc & Hget');
    [lia|].
  assert (c = None) as -> by congruence.
  destruct (calculate_winner_spec (<[Z.to_nat (index p) := Some m]> (board g)))
    as (w' & Hw' & Hline & Hiff); [by rewrite length_insert|].
  assert (w' = w) as -> by congruence.
  exists m, w, g'. subst g'. by split_and!.
Qed.

(** C1. An accepted move places the acting role's mark at the index; the
    winner is then set exactly when one of the eight lines holds three equal
    marks, it is the mark of such a line (the acting role's own mark when
    no line was complete before), that mark's score grows by exactly one and
    the other score stays. In particular X at index 2 on the board
    X X _ / _ O O / _ _ _ wins the round for X and adds one to [score_x]. *)
Theorem move_sets_winner_and_score :
  (∀ gid p st st' resp g,
      st !! gid = Some g → board_ok g →
      make_move gid p st = (st', Ok resp) →
      ∃ m g',
        role_valid p m ∧ st' !! gid = Some g' ∧ resp = Some g'
        ∧ board g' = <[Z.to_nat (index p) := Some m]> (board g)
        ∧ winner_settled g g'
        ∧ (¬ some_line_won (board g) → ∀ w, winner g' = Some w → w = m))
  ∧ (∀ gid pid st g,
      st !! gid = Some g →
      board g = [Some X; Some X; None; None; Some O; Some O; None; None; None] →
      x_player g = Some pid →
      winner g = None → draw g = false → x_is_next g = true →
      ∃ st' g',
        make_move gid (mkMoveRequest 2 str_X pid) st = (st', Ok (Some g'))
        ∧ st' !! gid = Some g'
        ∧ winner g' = Some X
        ∧ score_x g' = score_x g + 1 ∧ score_o g' = score_o g).
Proof.
  split.
  - intros gid p st st' resp g Hg Hlen Hrun.
    destruct (accepted_move_outcome gid p st st' resp g Hg Hlen Hrun)
      as (m & w & g' & Hm & _ & _ & -> & -> & Hg' & Hline & Hiff).
    exists m, g'. rewrite lookup_insert_eq.
    assert (winner g' = w) as Hwin by (by subst g').
    assert (board g' = <[Z.to_nat (index p) := Some m]> (board g)) as Hb
      by (by subst g').
    split_and!; try done.
    + unfold winner_settled. rewrite Hwin. split_and!; [done| |].
      * intros w' ->. split; [by apply Hline|].
        subst g'. by apply score_after_spec.
      * intros ->. subst g'. by apply score_after_spec.
    + intros Hnone w' Hw'. rewrite Hwin in Hw'.
      destruct (Hline w' Hw') as (l & Hl & Hwon). rewrite Hb in Hwon.
      apply line_won_insert in Hwon as [->|Hwon]; [done|].
      destruct Hnone. by exists l, w'.
  - intros gid pid st g Hg Hb Hx Hw Hd Hnext.
    destruct (make_move_accepted gid (mkMoveRequest 2 str_X pid) st g Hg X)
      as (w & g' & Hcw & Hg' & Hrun).
    + done.
    + done.
    + by split.
    + unfold on_turn. by rewrite Hnext.
    + unfold index_in_range. cbn. lia.
    + unfold board_ok. by rewrite Hb.
    + unfold target_empty. by rewrite Hb.
    + cbn [index] in *. rewrite Hb in Hcw. vm_compute in Hcw.
      injection Hcw as <-.
      exists (<[gid := g']> st), g'. rewrite lookup_insert_eq.
      subst g'. by split_and!.
Qed.

Lemma move_sets_winner_and_score_witness :
  ∃ m g',
    role_valid (mkMoveRequest 2 str_X alice) m
    ∧ (make_move room_1234 (mkMoveRequest 2 str_X alice)
         {[ room_1234 := game_x_to_win ]}).1 !! room_1234 = Some g'
    ∧ board g' = <[2%nat := Some m]> (board game_x_to_win)
    ∧ winner g' = Some X ∧ score_x g' = 4 ∧ score_o g' = 1.
Proof.
  destruct (proj1 move_sets_winner_and_score room_1234
              (mkMoveRequest 2 str_X alice) {[ room_1234 := game_x_to_win ]}
              (make_move room_1234 (mkMoveRequest 2 str_X alice)
                 {[ room_1234 := game_x_to_win ]}).1
              (Some (set_move
                       [Some X; Some X; Some X; None; Some O; Some O;
                        None; None; None]
                       false (Some X) false 4 1 game_x_to_win))
              game_x_to_win)
    as (m & g' & Hm & Hg' & Hresp & Hb & _ & _).
  - vm_compute. reflexivity.
  - vm_compute. reflexivity.
  - vm_compute. reflexivity.
  - exists m, g'. injection Hresp as <-. split_and!; try done.
Defined.

(** C2. After an accepted move the draw flag is true exactly when all nine
    cells are occupied and no line is complete; with a winner the flag is
    false, and on a board that is neither full nor won both flags are unset;
    a full board without three in a row gives draw and no winner. *)
Theorem move_sets_draw (gid : pystr) (p : MoveRequest)
    (st st' : gmap pystr Game) (resp : option Game) (g : Game) :
  st !! gid = Some g → board_ok g →
  make_move gid p st = (st', Ok resp) →
  ∃ m g',
    role_valid p m ∧ st' !! gid = Some g' ∧ resp = Some g'
    ∧ board g' = <[Z.to_nat (index p) := Some m]> (board g)
    ∧ draw_settled g'.
Proof.
  intros Hg Hlen Hrun.
  destruct (accepted_move_outcome gid p st st' resp g Hg Hlen Hrun)
    as (m & w & g' & Hm & _ & _ & -> & -> & Hg' & Hline & Hiff).
  exists m, g'. rewrite lookup_insert_eq.
  set (b' := <[Z.to_nat (index p) := Some m]> (board g)) in *.
  assert (winner g' = w) as Hwin by (by subst g').
  assert (board g' = b') as Hb by (by subst g').
  assert (draw g' = draw_after w b') as Hdraw by (by subst g').
  split_and!; try done.
  unfold draw_settled. rewrite Hwin, Hb, Hdraw. rewrite Hb in Hiff.
  unfold draw_after. destruct w as [w|].
  - assert (some_line_won b') as Hwon by (by apply Hiff).
    split_and!; try done. split; [done|]. by intros [_ ?].
  - assert (¬ some_line_won b') as Hnone.
    { intros Hwon. apply Hiff in Hwon. by destruct Hwon. }
    split_and!.
    + rewrite all_filled_spec. split; [done|by intros [? _]].
    + by intros [? ?].
    + intros Hnf _. split; [done|].
      destruct (all_filled b') eqn:Hall; [|done].
      by apply all_filled_spec in Hall.
    + intros Hfull _. split; [|done]. by apply all_filled_spec.
Qed.

Lemma move_sets_draw_witness :
  ∃ g',
    (make_move room_1234 (mkMoveRequest 8 str_X alice)
       {[ room_1234 := game_last_cell ]}).1 !! room_1234 = Some g'
    ∧ draw g' = true ∧ winner g' = None.
Proof.
  destruct (move_sets_draw room_1234 (mkMoveRequest 8 str_X alice)
              {[ room_1234 := game_last_cell ]}
              (make_move room_1234 (mkMoveRequest 8 str_X alice)
                 {[ room_1234 := game_last_cell ]}).1
              (Some (set_move
                       [Some X; Some O; Some X; Some X; Some O; Some O;
                        Some O; Some X; Some X]
                       false None true 3 1 game_last_cell))
              game_last_cell)
    as (m & g' & Hm & Hg' & Hresp & Hb & Hdraw).
  - vm_compute. reflexivity.
  - vm_compute. reflexivity.
  - vm_compute. reflexivity.
  - exists g'. injection Hresp as <-. split_and!; done.
Defined.

(** ** The order of the checks of a move *)

(** C3. The checks of a Move run in the order: game exists, role is X or O,
    caller is the player bound to the role (a role without a bound player
    never passes), round not decided, acting role on turn, index within
    0..8, target cell empty. Each error is returned as soon as the checks
    before it pass and its own check fails, whatever the later checks would
    say, and the store is left as it was; when all pass the move is
    accepted. *)
Theorem move_checks_in_order (gid : pystr) (p : MoveRequest)
    (st : gmap pystr Game) :
  (st !! gid = None → make_move gid p st = (st, Err NotFound))
  ∧ (∀ g, st !! gid = Some g →
      (role p ≠ str_X → role p ≠ str_O →
       make_move gid p st = (st, Err InvalidRole))
      ∧ (∀ m, role_valid p m →
          (¬ caller_bound g p m →
           make_move gid p st = (st, Err (NotAuthorized m)))
          ∧ (player m g = None →
             make_move gid p st = (st, Err (NotAuthorized m)))
          ∧ (caller_bound g p m →
              (¬ round_open g →
               make_move gid p st = (st, Err RoundFinished))
              ∧ (round_open g →
                  (¬ on_turn g m →
                   make_move gid p st = (st, Err NotYourTurn))
                  ∧ (on_turn g m →
                      (¬ index_in_range p →
                       make_move gid p st = (st, Err InvalidIndex))
                      ∧ (index_in_range p →
                          (∀ c, board g !! Z.to_nat (index p) = Some (Some c) →
                             make_move gid p st = (st, Err SquareFilled))
                          ∧ (board_ok g → target_empty g p →
                             ∃ st' g',
                               make_move gid p st = (st', Ok (Some g'))))))))).
Proof.
  split; [apply make_move_not_found|].
  intros g Hg. split; [exact (make_move_invalid_role gid p st g Hg)|].
  intros m Hm. split_and!.
  - exact (make_move_unauthorized gid p st g Hg m Hm).
  - intros Hnone. apply (make_move_unauthorized gid p st g Hg m Hm).
    unfold caller_bound. by rewrite Hnone.
  - intros Hb. split; [exact (make_move_round_finished gid p st g Hg m Hm Hb)|].
    intros Hopen.
    split; [exact (make_move_wrong_turn gid p st g Hg m Hm Hb Hopen)|].
    intros Hturn.
    split; [exact (make_move_invalid_index gid p st g Hg m Hm Hb Hopen Hturn)|].
    intros Hidx. split.
    + exact (make_move_square_filled gid p st g Hg m Hm Hb Hopen Hturn Hidx).
    + intros Hlen Hempty.
      destruct (make_move_accepted gid p st g Hg m Hm Hb Hopen Hturn Hidx
                  Hlen Hempty) as (w & g' & _ & _ & Hrun).
      by exists (<[gid := g']> st), g'.
Qed.

(** A request that fails the turn check and the index check at once is
    answered with the turn error. *)
Lemma move_checks_in_order_witness :
  make_move room_1234 (mkMoveRequest 11 str_O bob)
    {[ room_1234 := game_x_to_win ]}
  = ({[ room_1234 := game_x_to_win ]}, Err NotYourTurn).
Proof.
  destruct (move_checks_in_order room_1234 (mkMoveRequest 11 str_O bob)
              {[ room_1234 := game_x_to_win ]}) as [_ Hfound].
  destruct (Hfound game_x_to_win) as [_ Hrole]; [vm_compute; reflexivity|].
  destruct (Hrole O) as (_ & _ & Hbound); [vm_compute; reflexivity|].
  destruct Hbound as [_ Hopen]; [vm_compute; reflexivity|].
  destruct Hopen as [Hturn _]; [vm_compute; split; reflexivity|].
  apply Hturn. vm_compute. discriminate.
Defined.

(** ** The turn flag *)

(** C5. An accepted move flips [x_is_next], whatever the move did to the
    winner and the draw flag; a rejected move leaves the store, and so the
    flag, as it was. *)
Theorem move_flips_turn (gid : pystr) (p : MoveRequest)
    (st st' : gmap pystr Game) :
  (∀ resp, make_move gid p st = (st', Ok resp) →
     ∃ g g', st !! gid = Some g ∧ st' !! gid = Some g' ∧ resp = Some g'
       ∧ x_is_next g' = negb (x_is_next g))
  ∧ (∀ e, make_move gid p st = (st', Err e) → st' = st).
Proof.
  split.
  - intros resp Hrun.
    apply make_move_Ok_inv in Hrun
      as (g & m & b' & w & g' & Hg & _ & _ & _ & _ & _ & _ & _ & _
          & Hg' & -> & ->).
    exists g, g'. rewrite lookup_insert_eq. split_and!; try done.
    by subst g'.
  - intros e. apply make_move_Err_store.
Qed.

(** The winning move of X flips the flag all the same. *)
Lemma move_flips_turn_witness :
  ∃ g', (make_move room_1234 (mkMoveRequest 2 str_X alice)
           {[ room_1234 := game_x_to_win ]}).1 !! room_1234 = Some g'
        ∧ winner g' = Some X ∧ x_is_next g' = false.
Proof.
  destruct (proj1 (move_flips_turn room_1234 (mkMoveRequest 2 str_X alice)
              {[ room_1234 := game_x_to_win ]}
              (make_move room_1234 (mkMoveRequest 2 str_X alice)
                 {[ room_1234 := game_x_to_win ]}).1)
              (Some (set_move
                       [Some X; Some X; Some X; None; Some O; Some O;
                        None; None; None]
                       false (Some X) false 4 1 game_x_to_win)))
    as (g & g' & Hg & Hg' & Hresp & Hflip).
  - vm_compute. reflexivity.
  - exists g'. injection Hresp as <-. split_and!; try done.
Defined.

(** ** The two resets *)

(** C6. Reset Round on an existing game writes a record with nine empty
    cells, no winner, no draw, [x_starts] negated and [x_is_next] equal to
    the new [x_starts]; scores, player bindings and the room code stay. On a
    code without a record it fails with not-found. *)
Theorem reset_round_effect (gid : pystr) (st : gmap pystr Game) :
  (∀ g, st !! gid = Some g →
     ∃ g', reset_round gid st = (<[gid := g']> st, Ok (Some g'))
       ∧ board g' = replicate 9 None
       ∧ winner g' = None ∧ draw g' = false
       ∧ x_starts g' = negb (x_starts g)
       ∧ x_is_next g' = x_starts g'
       ∧ score_x g' = score_x g ∧ score_o g' = score_o g
       ∧ x_player g' = x_player g ∧ o_player g' = o_player g
       ∧ game_id g' = game_id g)
  ∧ (st !! gid = None → reset_round gid st = (st, Err NotFound)).
Proof.
  rewrite reset_round_run. split.
  - intros g ->. cbn zeta. eexists. split; [reflexivity|]. by split_and!.
  - by intros ->.
Qed.

Lemma reset_round_effect_witness :
  ∃ g', reset_round room_1234 {[ room_1234 := game_last_cell ]}
        = (<[room_1234 := g']> {[ room_1234 := game_last_cell ]}, Ok (Some g'))
      ∧ board g' = replicate 9 None
      ∧ x_starts g' = false ∧ x_is_next g' = false
      ∧ score_x g' = 3 ∧ score_o g' = 1.
Proof.
  destruct (proj1 (reset_round_effect room_1234
                     {[ room_1234 := game_last_cell ]}) game_last_cell)
    as (g' & Hrun & Hb & _ & _ & Hs & Hn & Hsx & Hso & _).
  - vm_compute. reflexivity.
  - exists g'. rewrite Hn, Hs. by split_and!.
Defined.

(** C7. Reset Scores on an existing game writes a record with both scores
    zero, nine empty cells, no winner, no draw and [x_is_next] equal to the
    unchanged [x_starts]; [x_starts], player bindings and the room code
    stay. On a code without a record it fails with not-found. *)
Theorem reset_scores_effect (gid : pystr) (st : gmap pystr Game) :
  (∀ g, st !! gid = Some g →
     ∃ g', reset_scores gid st = (<[gid := g']> st, Ok (Some g'))
       ∧ score_x g' = 0 ∧ score_o g' = 0
       ∧ board g' = replicate 9 None
       ∧ winner g' = None ∧ draw g' = false
       ∧ x_is_next g' = x_starts g
       ∧ x_starts g' = x_starts g
       ∧ x_player g' = x_player g ∧ o_player g' = o_player g
       ∧ game_id g' = game_id g)
  ∧ (st !! gid = None → reset_scores gid st = (st, Err NotFound)).
Proof.
  rewrite reset_scores_run. split.
  - intros g ->. cbn zeta. eexists. split; [reflexivity|]. by split_and!.
  - by intros ->.
Qed.

Lemma reset_scores_effect_witness :
  ∃ g', reset_scores room_1234 {[ room_1234 := game_last_cell ]}
        = (<[room_1234 := g']> {[ room_1234 := game_last_cell ]}, Ok (Some g'))
      ∧ score_x g' = 0 ∧ score_o g' = 0
      ∧ board g' = replicate 9 None
      ∧ x_starts g' = true ∧ x_is_next g' = true.
Proof.
  destruct (proj1 (reset_scores_effect room_1234
                     {[ room_1234 := game_last_cell ]}) game_last_cell)
    as (g' & Hrun & Hsx & Hso & Hb & _ & _ & Hn & Hs & _).
  - vm_compute. reflexivity.
  - exists g'. rewrite Hn, Hs. by split_and!.
Defined.

(** ** Rejected requests *)

(** C8. Whatever the operation, a request answered with an error leaves the
    store exactly as it found it. *)
Theorem rejected_request_writes_nothing (char_isdigit : N → bool)
    (st st' : gmap pystr Game) (e : http_error) :
  (∀ payload, join_game char_isdigit payload st = (st', Err e) → st' = st)
  ∧ (∀ gid, get_game gid st = (st', Err e) → st' = st)
  ∧ (∀ gid p, make_move gid p st = (st', Err e) → st' = st)
  ∧ (∀ gid, reset_round gid st = (st', Err e) → st' = st)
  ∧ (∀ gid, reset_scores gid st = (st', Err e) → st' = st).
Proof.
  split_and!.
  - intros payload. apply join_game_Err_store.
  - intros gid. rewrite get_game_run. intros ?; by simplify_eq.
  - intros gid p. apply make_move_Err_store.
  - intros gid. rewrite reset_round_run.
    destruct (st !! gid); intros ?; by simplify_eq.
  - intros gid. rewrite reset_scores_run.
    destruct (st !! gid); intros ?; by simplify_eq.
Qed.

(** A move into the occupied cell 0 is refused and the record stays. *)
Lemma rejected_request_writes_nothing_witness :
  (make_move room_1234 (mkMoveRequest 0 str_X alice)
     {[ room_1234 := game_x_to_win ]}).1
  = {[ room_1234 := game_x_to_win ]}.
Proof.
  apply (proj1 (proj2 (proj2
           (rejected_request_writes_nothing ascii_digit
              {[ room_1234 := game_x_to_win ]}
              (make_move room_1234 (mkMoveRequest 0 str_X alice)
                 {[ room_1234 := game_x_to_win ]}).1
              SquareFilled)))
           room_1234 (mkMoveRequest 0 str_X alice)).
  vm_compute. reflexivity.
Defined.

(** ** Reachable records *)

Section Reachable.
Variable char_isdigit : N → bool.



(** C9. No record of a reachable store has both a winner and the draw flag
    set. *)
Theorem winner_and_draw_exclusive (st : gmap pystr Game) (gid : pystr)
    (g : Game) :
  reachable char_isdigit st → st !! gid = Some g →
  ¬ (is_Some (winner g) ∧ draw g = true).
Proof.
  intros Hreach Hg [Hw Hd].
  assert (is_Some (winner g) → draw g = false) as Hinv.
  { refine (reachable_invariant char_isdigit
              (λ g, is_Some (winner g) → draw g = false) _ st Hreach gid g Hg).
    apply serve_preserves; try (cbn; done).
    intros g0 idx m b' w _ _ _. cbn [draw winner set_move].
    by intros [w' ->]. }
  rewrite Hinv in Hd; done.
Qed.

End Reachable.

(** Two joins, then X takes the top row in five moves. *)
Lemma winner_and_draw_exclusive_witness :
  let g := set_move
             [Some X; Some X; Some X; None; Some O; Some O; None; None; None]
             false (Some X) false 1 0
             (set_o_player bob (set_x_player alice
                {| game_id := room_1234; board := empty_board;
                   x_starts := true; x_is_next := true;
                   x_player := None; o_player := None;
                   winner := None; draw := false;
                   score_x := 0; score_o := 0 |})) in
  serve_all ascii_digit
    [ Join (mkJoinRequest room_1234 alice);
      Join (mkJoinRequest room_1234 bob);
      Move room_1234 (mkMoveRequest 0 str_X alice);
      Move room_1234 (mkMoveRequest 4 str_O bob);
      Move room_1234 (mkMoveRequest 1 str_X alice);
      Move room_1234 (mkMoveRequest 5 str_O bob);
      Move room_1234 (mkMoveRequest 2 str_X alice) ] ∅ !! room_1234 = Some g
  ∧ winner g = Some X
  ∧ ¬ (is_Some (winner g) ∧ draw g = true).
Proof.
  intros g. split; [vm_compute; reflexivity|]. split; [reflexivity|].
  apply (winner_and_draw_exclusive ascii_digit
           (serve_all ascii_digit
              [ Join (mkJoinRequest room_1234 alice);
                Join (mkJoinRequest room_1234 bob);
                Move room_1234 (mkMoveRequest 0 str_X alice);
                Move room_1234 (mkMoveRequest 4 str_O bob);
                Move room_1234 (mkMoveRequest 1 str_X alice);
                Move room_1234 (mkMoveRequest 5 str_O bob);
                Move room_1234 (mkMoveRequest 2 str_X alice) ] ∅)
           room_1234 g).
  - eexists. reflexivity.
  - vm_compute. reflexivity.
Defined.

(** ** Room codes outside Join *)

(** C10. Fetch, Move, Reset Round and Reset Scores take any string as room
    code and answer not-found when no record is stored under it, well formed
    or not; Join alone refuses a code that is not four digits. *)
Theorem only_join_checks_the_code (char_isdigit : N → bool) (gid : pystr)
    (st : gmap pystr Game) :
  st !! gid = None →
  get_game gid st = (st, Err NotFound)
  ∧ (∀ p, make_move gid p st = (st, Err NotFound))
  ∧ reset_round gid st = (st, Err NotFound)
  ∧ reset_scores gid st = (st, Err NotFound)
  ∧ (¬ four_digits char_isdigit gid →
     ∀ pid, join_game char_isdigit (mkJoinRequest gid pid) st
            = (st, Err BadGameId)).
Proof.
  intros Hnone. split_and!.
  - by rewrite get_game_run, Hnone.
  - intros p. by apply make_move_not_found.
  - by rewrite reset_round_run, Hnone.
  - by rewrite reset_scores_run, Hnone.
  - intros Hbad pid. by apply join_game_malformed.
Qed.

Lemma only_join_checks_the_code_witness :
  get_game room_12a ∅ = (∅, Err NotFound)
  ∧ make_move room_12a (mkMoveRequest 0 str_X alice) ∅ = (∅, Err NotFound)
  ∧ reset_round room_12a ∅ = (∅, Err NotFound)
  ∧ reset_scores room_12a ∅ = (∅, Err NotFound)
  ∧ join_game ascii_digit (mkJoinRequest room_12a alice) ∅
    = (∅, Err BadGameId).
Proof.
  destruct (only_join_checks_the_code ascii_digit room_12a ∅)
    as (Hget & Hmove & Hround & Hscores & Hjoin).
  - vm_compute. reflexivity.
  - split_and!; [exact Hget|apply Hmove|exact Hround|exact Hscores|].
    apply Hjoin. vm_compute. intros [? _]. discriminate.
Defined.

(** ** Join *)

Section JoinRule.
Variable char_isdigit : N → bool.

(** X19. Join on a well-formed code, as long as the identifiers bound in the
    record are not the empty string: a new room is created for X, a bound
    caller gets the same role back and nothing is written, a new caller takes
    X if it is free, else O if it is free, else the room is full. *)
Lemma join_game_by_the_rule (gid pid : pystr) (st : gmap pystr Game) :
  four_digits char_isdigit gid →
  let run := join_game char_isdigit (mkJoinRequest gid pid) st in
  (st !! gid = None →
   ∃ g, run = (<[gid := g]> st, Ok (X, Some g))
     ∧ game_id g = gid ∧ board g = replicate 9 None
     ∧ x_starts g = true ∧ x_is_next g = true
     ∧ x_player g = Some pid ∧ o_player g = None
     ∧ winner g = None ∧ draw g = false
     ∧ score_x g = 0 ∧ score_o g = 0)
  ∧ (∀ g, st !! gid = Some g →
      (x_player g = Some pid → run = (st, Ok (X, Some g)))
      ∧ (x_player g ≠ Some pid → o_player g = Some pid →
         run = (st, Ok (O, Some g)))
      ∧ (x_player g ≠ Some pid → o_player g ≠ Some pid →
         x_player g ≠ Some [] → o_player g ≠ Some [] →
         (x_player g = None →
          run = (<[gid := set_x_player pid g]> st,
                 Ok (X, Some (set_x_player pid g))))
         ∧ (is_Some (x_player g) → o_player g = None →
            run = (<[gid := set_o_player pid g]> st,
                   Ok (O, Some (set_o_player pid g))))
         ∧ (is_Some (x_player g) → is_Some (o_player g) →
            run = (st, Err GameFull)))).
Proof.
  intros Hok run. unfold run.
  rewrite (join_game_run char_isdigit (mkJoinRequest gid pid) st Hok).
  cbn [join_game_id join_player_id]. split.
  - intros ->. eexists. split; [reflexivity|]. by split_and!.
  - intros g ->. split_and!.
    + intros Hx. by rewrite bool_decide_eq_true_2.
    + intros Hx Ho. rewrite bool_decide_eq_false_2 by done.
      by rewrite bool_decide_eq_true_2.
    + intros Hx Ho HxE HoE.
      rewrite !bool_decide_eq_false_2 by done.
      destruct (x_player g) as [[|c x]|], (o_player g) as [[|d o]|];
        cbn; split_and!; try done; by intros [? ?].
Qed.

(** Join on a well-formed code when the identifier bound to a role is the
    empty string: the role counts as free and the next caller takes it. *)
Lemma join_game_over_empty (gid pid : pystr) (st : gmap pystr Game) (g : Game) :
  four_digits char_isdigit gid → st !! gid = Some g →
  x_player g ≠ Some pid → o_player g ≠ Some pid →
  let run := join_game char_isdigit (mkJoinRequest gid pid) st in
  (x_player g = Some [] →
   run = (<[gid := set_x_player pid g]> st, Ok (X, Some (set_x_player pid g))))
  ∧ (str_truthy (x_player g) = true → o_player g = Some [] →
     run = (<[gid := set_o_player pid g]> st,
            Ok (O, Some (set_o_player pid g)))).
Proof.
  intros Hok Hg Hx Ho run. unfold run.
  rewrite (join_game_run char_isdigit (mkJoinRequest gid pid) st Hok).
  cbn [join_game_id join_player_id]. rewrite Hg.
  rewrite !bool_decide_eq_false_2 by done. split.
  - by intros ->.
  - by intros -> ->.
Qed.

(** C4, where the code departs from it. A caller with the empty identifier
    who opened room 1234 as X loses the seat to the next caller, and a room
    whose O seat is held by the empty identifier admits a third player as O
    where the capacity error is due. *)
Theorem join_rebinds_empty_identifier :
  (∀ c, ascii_digit c = true → char_isdigit c = true) →
  let opened := join_game char_isdigit (mkJoinRequest room_1234 []) ∅ in
  let taken := join_game char_isdigit (mkJoinRequest room_1234 bob) opened.1 in
  let st2 := (join_game char_isdigit (mkJoinRequest room_1234 [])
                (join_game char_isdigit (mkJoinRequest room_1234 alice) ∅).1).1
  in
  let third := join_game char_isdigit (mkJoinRequest room_1234 carol) st2 in
  (∃ g, opened = ({[ room_1234 := g ]}, Ok (X, Some g))
     ∧ x_player g = Some [] ∧ o_player g = None)
  ∧ (∃ g, taken = ({[ room_1234 := g ]}, Ok (X, Some g))
     ∧ x_player g = Some bob ∧ o_player g = None)
  ∧ (∃ g, st2 !! room_1234 = Some g
     ∧ x_player g = Some alice ∧ o_player g = Some [])
  ∧ (∃ g, third = ({[ room_1234 := g ]}, Ok (O, Some g))
     ∧ x_player g = Some alice ∧ o_player g = Some carol).
Proof.
  intros Hdigits.
  assert (four_digits char_isdigit room_1234) as Hok.
  { split; [done|]. unfold room_1234. repeat constructor; by apply Hdigits. }
  pose proof (λ pid st,
                join_game_run char_isdigit (mkJoinRequest room_1234 pid) st Hok)
    as Hrun.
  cbn zeta in Hrun. cbn [join_game_id join_player_id] in Hrun.
  cbn zeta. rewrite !Hrun. clear Hrun Hok Hdigits.
  pose (g0 := {| game_id := room_1234; board := empty_board;
                 x_starts := true; x_is_next := true;
                 x_player := None; o_player := None;
                 winner := None; draw := false;
                 score_x := 0; score_o := 0 |}).
  split_and!.
  - exists (set_x_player [] g0). split_and!; vm_compute; reflexivity.
  - exists (set_x_player bob (set_x_player [] g0)).
    split_and!; vm_compute; reflexivity.
  - exists (set_o_player [] (set_x_player alice g0)).
    split_and!; vm_compute; reflexivity.
  - exists (set_o_player carol (set_o_player [] (set_x_player alice g0))).
    split_and!; vm_compute; reflexivity.
Qed.

End JoinRule.

Lemma join_rebinds_empty_identifier_witness :
  ∃ g, join_game ascii_digit (mkJoinRequest room_1234 bob)
         (join_game ascii_digit (mkJoinRequest room_1234 []) ∅).1
       = ({[ room_1234 := g ]}, Ok (X, Some g))
     ∧ x_player g = Some bob ∧ o_player g = None.
Proof.
  refine (proj1 (proj2 (join_rebinds_empty_identifier ascii_digit _))).
  intros c Hc. exact Hc.
Defined.

(** * Further properties of the handlers *)

(** ** How one request changes one record *)

Section Steps.
Variable char_isdigit : N → bool.

(** A stored record survives every request; it changes only when the
    request addresses its room, and then by one of the handlers' writes. *)
Lemma serve_lookup_Some (r : request) (st : gmap pystr Game) (k : pystr)
    (g : Game) :
  st !! k = Some g →
  ∃ g', serve char_isdigit r st !! k = Some g'
    ∧ (g' = g ∨ (target r = k ∧ record_step r g g')).
Proof.
  intros Hk. destruct r as [[gid pid]|gid|gid p|gid|gid]; cbn [serve target].
  - destruct (decide (four_digits char_isdigit gid)) as [Hok|Hbad].
    + rewrite (join_game_run char_isdigit (mkJoinRequest gid pid) st Hok).
      cbn [join_game_id join_player_id]. cbn zeta.
      destruct (st !! gid) as [g0|] eqn:Hg.
      * repeat case_bool_decide; cbn [fst]; [by eauto|by eauto|].
        destruct (str_truthy (x_player g0)) eqn:Hx; cbn [negb].
        -- destruct (str_truthy (o_player g0)) eqn:Ho; cbn [negb fst];
             [by eauto|].
           destruct (decide (gid = k)) as [->|Hne].
           ++ rewrite lookup_insert_eq. eexists. split; [done|]. right.
              split; [done|]. assert (g0 = g) as -> by congruence.
              by constructor.
           ++ rewrite lookup_insert_ne by done. by eauto.
        -- cbn [fst]. destruct (decide (gid = k)) as [->|Hne].
           ++ rewrite lookup_insert_eq. eexists. split; [done|]. right.
              split; [done|]. assert (g0 = g) as -> by congruence.
              by constructor.
           ++ rewrite lookup_insert_ne by done. by eauto.
      * cbn [fst]. rewrite lookup_insert_ne by congruence. by eauto.
    + rewrite (join_game_malformed char_isdigit (mkJoinRequest gid pid) st Hbad).
      by eauto.
  - rewrite get_game_run. by eauto.
  - destruct (make_move gid p st) as [st' [resp|e]] eqn:Hrun.
    + apply make_move_Ok_inv in Hrun
        as (g0 & m & b' & w & g' & Hg & Hm & Hb & Hopen & Hturn & Hidx
            & Hget & Hset & Hw & -> & -> & _).
      cbn [fst]. destruct (decide (gid = k)) as [->|Hne].
      * rewrite lookup_insert_eq. eexists. split; [done|]. right.
        split; [done|]. assert (g0 = g) as -> by congruence.
        by econstructor.
      * rewrite lookup_insert_ne by done. by eauto.
    + apply make_move_Err_store in Hrun as ->. by eauto.
  - rewrite reset_round_run. destruct (st !! gid) as [g0|] eqn:Hg;
      [|by eauto].
    cbn. destruct (decide (gid = k)) as [->|Hne].
    + rewrite lookup_insert_eq. eexists. split; [done|]. right.
      split; [done|]. assert (g0 = g) as -> by congruence. constructor.
    + rewrite lookup_insert_ne by done. by eauto.
  - rewrite reset_scores_run. destruct (st !! gid) as [g0|] eqn:Hg;
      [|by eauto].
    cbn. destruct (decide (gid = k)) as [->|Hne].
    + rewrite lookup_insert_eq. eexists. split; [done|]. right.
      split; [done|]. assert (g0 = g) as -> by congruence. constructor.
    + rewrite lookup_insert_ne by done. by eauto.
Qed.

(** A room appears only through a Join with its own, well-formed code. *)
Lemma serve_lookup_None (r : request) (st : gmap pystr Game) (k : pystr) :
  st !! k = None →
  serve char_isdigit r st !! k = None
  ∨ (∃ pid, r = Join (mkJoinRequest k pid) ∧ four_digits char_isdigit k
       ∧ serve char_isdigit r st !! k = Some (fresh_game k pid)).
Proof.
  intros Hk. destruct r as [[gid pid]|gid|gid p|gid|gid]; cbn [serve].
  - destruct (decide (four_digits char_isdigit gid)) as [Hok|Hbad].
    + rewrite (join_game_run char_isdigit (mkJoinRequest gid pid) st Hok).
      cbn [join_game_id join_player_id]. cbn zeta.
      destruct (st !! gid) as [g0|] eqn:Hg.
      * assert (gid ≠ k) as Hne by congruence.
        repeat case_match; cbn [fst]; rewrite ?lookup_insert_ne by done;
          by left.
      * cbn [fst]. destruct (decide (gid = k)) as [->|Hne].
        -- right. exists pid. by rewrite lookup_insert_eq.
        -- left. by rewrite lookup_insert_ne.
    + rewrite (join_game_malformed char_isdigit (mkJoinRequest gid pid) st Hbad).
      by left.
  - rewrite get_game_run. by left.
  - left. destruct (make_move gid p st) as [st' [resp|e]] eqn:Hrun.
    + apply make_move_Ok_inv in Hrun
        as (g0 & m & b' & w & g' & Hg & _ & _ & _ & _ & _ & _ & _ & _ & _
            & -> & _).
      cbn [fst]. rewrite lookup_insert_ne by congruence. done.
    + by apply make_move_Err_store in Hrun as ->.
  - left. rewrite reset_round_run. destruct (st !! gid) as [g0|] eqn:Hg;
      [|done].
    cbn. by rewrite lookup_insert_ne by congruence.
  - left. rewrite reset_scores_run. destruct (st !! gid) as [g0|] eqn:Hg;
      [|done].
    cbn. by rewrite lookup_insert_ne by congruence.
Qed.

(** Induction over the life of a record: what holds of a fresh record and
    is kept by every write holds of every record of a reachable store. *)
Lemma reachable_records (P : pystr → Game → Prop) :
  (∀ k pid, four_digits char_isdigit k → P k (fresh_game k pid)) →
  (∀ k r g g', P k g → record_step r g g' → P k g') →
  ∀ st k g, reachable char_isdigit st → st !! k = Some g → P k g.
Proof.
  intros Hnew Hstep st k g [rs <-]. revert k g. unfold serve_all.
  induction rs as [|r rs IH] using rev_ind; intros k g.
  - cbn. by rewrite lookup_empty.
  - rewrite foldl_app. cbn [foldl].
    set (st := foldl (λ st r, serve char_isdigit r st) ∅ rs) in *.
    destruct (st !! k) as [g0|] eqn:Hk.
    + destruct (serve_lookup_Some r st k g0 Hk) as (g' & Hg' & Hcase).
      intros Hg. assert (g' = g) as -> by congruence.
      destruct Hcase as [->|[_ Hrec]]; [by apply IH|].
      eapply Hstep; [by apply IH|done].
    + destruct (serve_lookup_None r st k Hk) as [Hnone|(pid & _ & Hok & Hg')].
      * intros Hg. congruence.
      * intros Hg. assert (g = fresh_game k pid) as -> by congruence.
        by apply Hnew.
Qed.

End Steps.

(** ** Python list access, continued *)

Lemma py_getitem_Val_nonneg {A} (l : list A) (i : Z) (a v : A) :
  0 ≤ i → py_getitem l i = Val a →
  l !! Z.to_nat i = Some a
  ∧ py_setitem l i v = Val (<[Z.to_nat i := v]> l).
Proof.
  intros Hi. unfold py_getitem, py_setitem.
  destruct (Z.ltb_spec i 0) as [?|_]; [lia|].
  destruct ((i <? 0) || (Z.of_nat (length l) <=? i)); [done|].
  destruct (l !! Z.to_nat i) as [a'|]; [|done]. by intros [= ->].
Qed.

Lemma count_mark_insert (b : list cell) (i : nat) (m m' : mark) :
  b !! i = Some None →
  count_mark m' (<[i := Some m]> b)
  = (count_mark m' b + (if bool_decide (m' = m) then 1 else 0))%nat.
Proof.
  revert i. induction b as [|c b IH]; intros i Hi; [done|].
  destruct i as [|i].
  - injection Hi as ->.
    change (<[0%nat := Some m]> (None :: b)) with (Some m :: b).
    cbn [count_mark].
    rewrite (bool_decide_eq_false_2 (None = Some m')) by done.
    destruct (decide (m' = m)) as [->|Hne].
    + rewrite !bool_decide_eq_true_2 by done. lia.
    + rewrite !bool_decide_eq_false_2 by congruence. lia.
  - change (<[S i := Some m]> (c :: b)) with (c :: <[i := Some m]> b).
    cbn [count_mark]. rewrite (IH i Hi). lia.
Qed.

Lemma count_mark_empty_board (m : mark) : count_mark m empty_board = 0%nat.
Proof. reflexivity. Qed.

Lemma empty_board_no_line : ¬ some_line_won empty_board.
Proof.
  intros (l & m & Hl & Hwon). destruct l as [[i j] k].
  destruct Hwon as (Hi & _). apply list_elem_of_lookup_2 in Hi.
  unfold empty_board in Hi. by apply elem_of_replicate in Hi as [? _].
Qed.

Lemma empty_board_not_full : ¬ board_full empty_board.
Proof.
  unfold board_full, empty_board. intros Hfull.
  apply Forall_cons in Hfull as [[? ?] _]. done.
Qed.

(** ** Invariants of the stored records *)

Section Invariants.
Variable char_isdigit : N → bool.

Lemma record_step_board_ok (r : request) (g g' : Game) :
  record_step r g g' → board_ok g → board_ok g'.
Proof.
  unfold board_ok. destruct 1; cbn; try done.
  intros Hlen. by rewrite (py_setitem_Val_length _ _ _ _ H5).
Qed.

Lemma record_step_flags (r : request) (g g' : Game) :
  record_step r g g' → board_ok g → flags_match_board g →
  flags_match_board g'.
Proof.
  assert (flags_match_board_fresh :
            ∀ g0, board g0 = empty_board → winner g0 = None → draw g0 = false →
                  flags_match_board g0).
  { intros g0 Hb Hw Hd. unfold flags_match_board. rewrite Hb, Hw, Hd.
    split_and!; [done| |].
    - split; [by intros [? ?]|]. intros Hwon. by destruct empty_board_no_line.
    - split; [done|]. intros [Hfull _]. by destruct empty_board_not_full. }
  destruct 1 as [| |gid p g m b' w Hm Hb Hopen Hturn Hidx Hget Hset Hw| |];
    intros Hlen Hflags; try done; try (by apply flags_match_board_fresh).
  unfold board_ok in Hlen.
  assert (length b' = 9%nat) as Hlen'
    by (by rewrite (py_setitem_Val_length _ _ _ _ Hset)).
  destruct (calculate_winner_spec b' Hlen') as (w' & Hw' & Hline & Hiff).
  assert (w' = w) as -> by congruence.
  unfold flags_match_board. cbn [board winner draw set_move].
  split_and!; [done|done|]. unfold draw_after. destruct w as [w|].
  - split; [done|]. intros [_ Hnone]. destruct Hnone. by apply Hiff.
  - rewrite all_filled_spec. split.
    + intros Hfull. split; [done|]. intros Hwon. apply Hiff in Hwon.
      by destruct Hwon.
    + by intros [? _].
Qed.

Lemma record_step_balanced (r : request) (g g' : Game) :
  record_step r g g' → marks_balanced g → marks_balanced g'.
Proof.
  destruct 1 as [| |gid p g m b' w Hm Hb Hopen Hturn Hidx Hget Hset Hw| |];
    unfold marks_balanced; cbn [board x_starts x_is_next set_x_player
      set_o_player set_move set_reset_round set_reset_scores]; try done.
  - unfold index_in_range in Hidx.
    destruct (py_getitem_Val_nonneg (board g) (index p) None (Some m))
      as [Hcell Hset']; [lia|done|].
    assert (b' = <[Z.to_nat (index p) := Some m]> (board g)) as ->
      by congruence.
    rewrite !(count_mark_insert _ _ _ _ Hcell).
    unfold on_turn in Hturn. rewrite Hturn.
    destruct (x_starts g), m; cbn;
      repeat case_bool_decide; try done; lia.
  - intros _. rewrite !count_mark_empty_board.
    by rewrite bool_decide_eq_true_2.
  - intros _. rewrite !count_mark_empty_board.
    by rewrite bool_decide_eq_true_2.
Qed.

Lemma reachable_board_and_flags (st : gmap pystr Game) (k : pystr)
    (g : Game) :
  reachable char_isdigit st → st !! k = Some g →
  board_ok g ∧ flags_match_board g.
Proof.
  intros Hreach Hk.
  refine (reachable_records char_isdigit
            (λ _ g, board_ok g ∧ flags_match_board g) _ _
            st k g Hreach Hk).
  - intros k0 pid _. split; [done|].
    unfold flags_match_board. cbn. split_and!; [done| |].
    + split; [by intros [? ?]|]. intros Hwon. by destruct empty_board_no_line.
    + split; [done|]. intros [Hfull _]. by destruct empty_board_not_full.
  - intros k0 r g0 g' [Hlen Hflags] Hstep. split.
    + by eapply record_step_board_ok.
    + by eapply record_step_flags.
Qed.

(** X1. The flags of every stored record say what its board shows: a
    recorded winner holds a complete line, a winner is recorded exactly when
    some line is complete, and the draw flag is set exactly when the board is
    full without a complete line. *)
Theorem reachable_flags_match_board (st : gmap pystr Game) (k : pystr)
    (g : Game) :
  reachable char_isdigit st → st !! k = Some g → flags_match_board g.
Proof.
  intros Hreach Hk. by destruct (reachable_board_and_flags st k g Hreach Hk).
Qed.

(** X2. On every stored board the marks agree with the turn flag: when the
    flag is on the round's starter both marks occur equally often, otherwise
    the starter's mark occurs once more. *)
Theorem reachable_marks_balanced (st : gmap pystr Game) (k : pystr)
    (g : Game) :
  reachable char_isdigit st → st !! k = Some g → marks_balanced g.
Proof.
  intros Hreach Hk.
  refine (reachable_records char_isdigit (λ _ g, marks_balanced g) _ _
            st k g Hreach Hk).
  - intros k0 pid _. unfold marks_balanced. reflexivity.
  - intros k0 r g0 g' Hbal Hstep. by eapply record_step_balanced.
Qed.

(** X3. Every record is stored under its own [game_id], that code has
    four digits, and both scores are non-negative. *)
Theorem reachable_code_and_scores (st : gmap pystr Game) (k : pystr)
    (g : Game) :
  reachable char_isdigit st → st !! k = Some g →
  game_id g = k ∧ four_digits char_isdigit k
  ∧ 0 ≤ score_x g ∧ 0 ≤ score_o g.
Proof.
  intros Hreach Hk.
  refine (reachable_records char_isdigit
            (λ k g, game_id g = k ∧ four_digits char_isdigit k
                    ∧ 0 ≤ score_x g ∧ 0 ≤ score_o g) _ _
            st k g Hreach Hk).
  - intros k0 pid Hok. cbn. by split_and!.
  - intros k0 r g0 g' (Hid & Hok & Hx & Ho) Hstep.
    destruct Hstep; cbn; split_and!; try done;
      unfold score_after; case_bool_decide; lia.
Qed.

End Invariants.

Lemma reachable_flags_match_board_witness : flags_match_board played_game.
Proof.
  apply (reachable_flags_match_board ascii_digit
           (serve_all ascii_digit played_requests ∅) room_1234 played_game).
  - exists played_requests. reflexivity.
  - vm_compute. reflexivity.
Defined.

Lemma reachable_marks_balanced_witness : marks_balanced played_game.
Proof.
  apply (reachable_marks_balanced ascii_digit
           (serve_all ascii_digit played_requests ∅) room_1234 played_game).
  - exists played_requests. reflexivity.
  - vm_compute. reflexivity.
Defined.

Lemma reachable_code_and_scores_witness :
  game_id played_game = room_1234 ∧ four_digits ascii_digit room_1234
  ∧ 0 ≤ score_x played_game ∧ 0 ≤ score_o played_game.
Proof.
  apply (reachable_code_and_scores ascii_digit
           (serve_all ascii_digit played_requests ∅) room_1234 played_game).
  - exists played_requests. reflexivity.
  - vm_compute. reflexivity.
Defined.

(** ** What a request leaves alone *)

Section Frame.
Variable char_isdigit : N → bool.

Lemma record_step_keeps_seat (r : request) (g g' : Game) (m : mark)
    (pid : pystr) :
  record_step r g g' → player m g = Some pid → pid ≠ [] →
  player m g' = Some pid.
Proof.
  intros Hstep Hp Hne.
  destruct Hstep as [gid pid' g _ _ Hx|gid pid' g _ _ _ Ho| | |];
    destruct m; cbn in *; try done.
  - rewrite Hp in Hx. by destruct pid.
  - rewrite Hp in Ho. by destruct pid.
Qed.

(** X4. A seat bound to a non-empty identifier keeps that identifier through
    every sequence of requests, and the record is never removed. *)
Theorem bound_seat_is_kept (rs : list request) (st : gmap pystr Game)
    (k : pystr) (g : Game) (m : mark) (pid : pystr) :
  st !! k = Some g → player m g = Some pid → pid ≠ [] →
  ∃ g', serve_all char_isdigit rs st !! k = Some g'
    ∧ player m g' = Some pid.
Proof.
  revert st g. induction rs as [|r rs IH]; intros st g Hk Hp Hne.
  - exists g. by split.
  - destruct (serve_lookup_Some char_isdigit r st k g Hk)
      as (g1 & Hk1 & Hcase).
    cbn [serve_all foldl]. apply (IH _ g1); [done| |done].
    destruct Hcase as [->|[_ Hstep]]; [done|].
    by eapply record_step_keeps_seat.
Qed.

(** X5. A request changes no room but the one it addresses. *)
Theorem other_rooms_untouched (r : request) (st : gmap pystr Game)
    (k : pystr) :
  target r ≠ k → serve char_isdigit r st !! k = st !! k.
Proof.
  intros Hne. destruct (st !! k) as [g|] eqn:Hk.
  - destruct (serve_lookup_Some char_isdigit r st k g Hk)
      as (g' & Hk' & [->|[Ht _]]); done.
  - destruct (serve_lookup_None char_isdigit r st k Hk)
      as [Hnone|(pid & -> & _)]; done.
Qed.


End Frame.

Lemma bound_seat_is_kept_witness :
  ∃ g', serve_all ascii_digit
          [ Join (mkJoinRequest room_1234 carol);
            Move room_1234 (mkMoveRequest 2 str_O bob);
            ResetScores room_1234 ]
          {[ room_1234 := played_game ]} !! room_1234 = Some g'
      ∧ player X g' = Some alice.
Proof.
  apply (bound_seat_is_kept ascii_digit _ _ room_1234 played_game X alice).
  - vm_compute. reflexivity.
  - reflexivity.
  - discriminate.
Defined.

Lemma other_rooms_untouched_witness :
  serve ascii_digit (ResetScores room_12a) {[ room_1234 := played_game ]}
    !! room_1234
  = ({[ room_1234 := played_game ]} : gmap pystr Game) !! room_1234.
Proof.
  apply other_rooms_untouched. vm_compute. discriminate.
Defined.


(** ** Responses *)

Lemma caller_bound_dec (g : Game) (p : MoveRequest) (m : mark) :
  caller_bound g p m ∨ ¬ caller_bound g p m.
Proof.
  unfold caller_bound.
  destruct (decide (player m g = Some (player_id p))); by eauto.
Qed.

Lemma round_open_dec (g : Game) : round_open g ∨ ¬ round_open g.
Proof.
  unfold round_open.
  destruct (winner g), (draw g); by eauto || (right; by intros [? ?]).
Qed.

Lemma on_turn_dec (g : Game) (m : mark) : on_turn g m ∨ ¬ on_turn g m.
Proof.
  unfold on_turn.
  destruct (decide (x_is_next g = bool_decide (m = X))); by eauto.
Qed.

(** With nine cells on the stored board, a move ends in an accepted move or
    in one of the seven errors of its checks. *)
Lemma make_move_no_server_error (gid : pystr) (p : MoveRequest)
    (st : gmap pystr Game) :
  (∀ g, st !! gid = Some g → board_ok g) →
  no_server_error (make_move gid p st).2.
Proof.
  intros Hlen. destruct (st !! gid) as [g|] eqn:Hg;
    [|by rewrite make_move_not_found].
  specialize (Hlen g eq_refl).
  destruct (mark_of_role (role p)) as [m|] eqn:Hm.
  2:{ apply mark_of_role_None in Hm as [HX HO].
      by rewrite (make_move_invalid_role gid p st g Hg HX HO). }
  destruct (caller_bound_dec g p m) as [Hb|Hb];
    [|by rewrite (make_move_unauthorized gid p st g Hg m Hm Hb)].
  destruct (round_open_dec g) as [Hopen|Hopen];
    [|by rewrite (make_move_round_finished gid p st g Hg m Hm Hb Hopen)].
  destruct (on_turn_dec g m) as [Hturn|Hturn];
    [|by rewrite (make_move_wrong_turn gid p st g Hg m Hm Hb Hopen Hturn)].
  destruct (decide (0 ≤ index p ≤ 8)) as [Hidx|Hidx];
    [|by rewrite (make_move_invalid_index gid p st g Hg m Hm Hb Hopen Hturn
                    Hidx)].
  destruct (py_getitem_in_range (board g) (index p)) as ([c|] & Hc & _).
  { unfold board_ok in Hlen. lia. }
  - by rewrite (make_move_square_filled gid p st g Hg m Hm Hb Hopen Hturn
                  Hidx c Hc).
  - destruct (make_move_accepted gid p st g Hg m Hm Hb Hopen Hturn Hidx
                Hlen Hc) as (w & g' & _ & _ & ->).
    done.
Qed.

Section Responses.
Variable char_isdigit : N → bool.

(** X7. On a reachable store no request ends in an uncaught exception:
    every handler answers with its payload or with one of its own errors. *)
Theorem reachable_no_server_error (st : gmap pystr Game) :
  reachable char_isdigit st →
  (∀ payload, no_server_error (join_game char_isdigit payload st).2)
  ∧ (∀ gid, no_server_error (get_game gid st).2)
  ∧ (∀ gid p, no_server_error (make_move gid p st).2)
  ∧ (∀ gid, no_server_error (reset_round gid st).2)
  ∧ (∀ gid, no_server_error (reset_scores gid st).2).
Proof.
  intros Hreach. split_and!.
  - intros payload.
    destruct (decide (four_digits char_isdigit (join_game_id payload)))
      as [Hok|Hbad].
    + rewrite (join_game_run char_isdigit payload st Hok). cbn zeta.
      by repeat case_match.
    + by rewrite (join_game_malformed char_isdigit payload st Hbad).
  - intros gid. rewrite get_game_run. by destruct (st !! gid).
  - intros gid p. apply make_move_no_server_error. intros g Hg.
    revert Hg. apply (reachable_records char_isdigit (λ _ g, board_ok g));
      [done| |done].
    intros k r g0 g' Hlen Hstep. by eapply record_step_board_ok.
  - intros gid. rewrite reset_round_run. by destruct (st !! gid).
  - intros gid. rewrite reset_scores_run. by destruct (st !! gid).
Qed.

(** X8. The game a successful request returns is the record it leaves in
    the store: a Fetch of the same room right after it returns the same game
    and changes nothing, and a Fetch itself never writes. *)
Theorem response_is_stored_record (st st' : gmap pystr Game) :
  (∀ payload role og,
      join_game char_isdigit payload st = (st', Ok (role, og)) →
      is_Some og ∧ get_game (join_game_id payload) st' = (st', Ok og))
  ∧ (∀ gid p resp,
      make_move gid p st = (st', Ok resp) →
      is_Some resp ∧ get_game gid st' = (st', Ok resp))
  ∧ (∀ gid resp,
      reset_round gid st = (st', Ok resp) →
      is_Some resp ∧ get_game gid st' = (st', Ok resp))
  ∧ (∀ gid resp,
      reset_scores gid st = (st', Ok resp) →
      is_Some resp ∧ get_game gid st' = (st', Ok resp))
  ∧ (∀ gid resp,
      get_game gid st = (st', Ok resp) →
      st' = st ∧ is_Some resp ∧ get_game gid st' = (st', Ok resp)).
Proof.
  split_and!.
  - intros payload role og.
    destruct (decide (four_digits char_isdigit (join_game_id payload)))
      as [Hok|Hbad].
    + rewrite (join_game_run char_isdigit payload st Hok). cbn zeta.
      destruct (st !! join_game_id payload) as [g|] eqn:Hg.
      * repeat case_match; intros ?; simplify_eq;
          rewrite get_game_run, ?lookup_insert_eq, ?Hg; by eauto.
      * intros ?; simplify_eq. rewrite get_game_run, lookup_insert_eq.
        by eauto.
    + by rewrite (join_game_malformed char_isdigit payload st Hbad).
  - intros gid p resp Hrun.
    apply make_move_Ok_inv in Hrun
      as (g & m & b' & w & g' & _ & _ & _ & _ & _ & _ & _ & _ & _ & _
          & -> & ->).
    rewrite get_game_run, lookup_insert_eq. by eauto.
  - intros gid resp. rewrite reset_round_run.
    destruct (st !! gid) as [g|]; [|done]. cbn zeta. intros ?; simplify_eq.
    rewrite get_game_run, lookup_insert_eq. by eauto.
  - intros gid resp. rewrite reset_scores_run.
    destruct (st !! gid) as [g|]; [|done]. cbn zeta. intros ?; simplify_eq.
    rewrite get_game_run, lookup_insert_eq. by eauto.
  - intros gid resp. rewrite get_game_run.
    destruct (st !! gid) as [g|] eqn:Hg; [|done]. intros ?; simplify_eq.
    rewrite get_game_run, Hg. by eauto.
Qed.

(** X9. Join is idempotent: the same Join sent again right after it
    succeeded returns the same role and game and writes nothing. *)
Theorem join_again_changes_nothing (payload : JoinRequest)
    (st st' : gmap pystr Game) (role : mark) (og : option Game) :
  join_game char_isdigit payload st = (st', Ok (role, og)) →
  join_game char_isdigit payload st' = (st', Ok (role, og)).
Proof.
  destruct (decide (four_digits char_isdigit (join_game_id payload)))
    as [Hok|Hbad].
  - rewrite !(join_game_run char_isdigit payload _ Hok). cbn zeta.
    destruct (st !! join_game_id payload) as [g|] eqn:Hg.
    + destruct (bool_decide (x_player g = Some _)) eqn:Hx.
      { intros ?; simplify_eq. by rewrite Hg, Hx. }
      destruct (bool_decide (o_player g = Some _)) eqn:Ho.
      { intros ?; simplify_eq. by rewrite Hg, Hx, Ho. }
      destruct (str_truthy (x_player g)) eqn:Htx; cbn [negb].
      * destruct (str_truthy (o_player g)) eqn:Hto; cbn [negb]; [done|].
        intros ?; simplify_eq. rewrite lookup_insert_eq.
        cbn [x_player o_player set_o_player]. rewrite Hx.
        by rewrite bool_decide_eq_true_2.
      * intros ?; simplify_eq. rewrite lookup_insert_eq.
        cbn [x_player set_x_player]. by rewrite bool_decide_eq_true_2.
    + intros ?; simplify_eq. rewrite lookup_insert_eq.
      cbn [x_player]. by rewrite bool_decide_eq_true_2.
  - by rewrite (join_game_malformed char_isdigit payload st Hbad).
Qed.

End Responses.

Lemma join_again_changes_nothing_witness :
  join_game ascii_digit (mkJoinRequest room_1234 carol)
    (join_game ascii_digit (mkJoinRequest room_1234 carol)
       {[ room_1234 := fresh_game room_1234 alice ]}).1
  = ((join_game ascii_digit (mkJoinRequest room_1234 carol)
        {[ room_1234 := fresh_game room_1234 alice ]}).1,
     Ok (O, Some (set_o_player carol (fresh_game room_1234 alice)))).
Proof.
  refine (join_again_changes_nothing ascii_digit
            (mkJoinRequest room_1234 carol)
            {[ room_1234 := fresh_game room_1234 alice ]} _ _ _ _).
  vm_compute. reflexivity.
Defined.

Lemma reachable_no_server_error_witness :
  no_server_error
    (make_move room_1234 (mkMoveRequest 2 str_O bob)
       (serve_all ascii_digit played_requests ∅)).2.
Proof.
  refine (proj1 (proj2 (proj2
            (reachable_no_server_error ascii_digit
               (serve_all ascii_digit played_requests ∅) _)))
            room_1234 (mkMoveRequest 2 str_O bob)).
  exists played_requests. reflexivity.
Defined.

Lemma response_is_stored_record_witness :
  get_game room_1234
    (make_move room_1234 (mkMoveRequest 2 str_O bob)
       {[ room_1234 := played_game ]}).1
  = ((make_move room_1234 (mkMoveRequest 2 str_O bob)
        {[ room_1234 := played_game ]}).1,
     Ok (Some (set_move
                 [Some X; Some X; Some O; None; Some O; None; None; None; None]
                 true None false 0 0 played_game))).
Proof.
  refine (proj2 (proj1 (proj2 (response_is_stored_record ascii_digit
                                 {[ room_1234 := played_game ]}
                                 (make_move room_1234
                                    (mkMoveRequest 2 str_O bob)
                                    {[ room_1234 := played_game ]}).1))
                   room_1234 (mkMoveRequest 2 str_O bob) _ _)).
  vm_compute. reflexivity.
Defined.

(** ** Turns and rounds *)

Lemma mark_of_role_of_mark (m : mark) : mark_of_role (role_of_mark m) = Some m.
Proof. by destruct m. Qed.

(** X10. Moves alternate: right after an accepted move, a move of the same
    role by the same caller is refused at every index, with the turn error
    while the round is open and with the round-finished error once the move
    decided the round. *)
Theorem same_role_cannot_move_twice (gid : pystr) (p : MoveRequest)
    (st st' : gmap pystr Game) (resp : option Game) :
  make_move gid p st = (st', Ok resp) →
  ∃ g', resp = Some g'
    ∧ ∀ idx,
        let again := mkMoveRequest idx (role p) (player_id p) in
        (round_open g' → make_move gid again st' = (st', Err NotYourTurn))
        ∧ (¬ round_open g' →
           make_move gid again st' = (st', Err RoundFinished)).
Proof.
  intros Hrun.
  apply make_move_Ok_inv in Hrun
    as (g & m & b' & w & g' & Hg & Hm & Hb & Hopen & Hturn & _ & _ & _ & _
        & Hg' & -> & ->).
  exists g'. split; [done|]. intros idx again.
  assert (<[gid := g']> st !! gid = Some g') as Hk by apply lookup_insert_eq.
  assert (role_valid again m) as Hm' by done.
  assert (caller_bound g' again m) as Hb'.
  { unfold caller_bound in *. subst g'. by destruct m. }
  split.
  - intros Hopen'.
    apply (make_move_wrong_turn gid again _ g' Hk m Hm' Hb' Hopen').
    unfold on_turn in *. subst g'. cbn [x_is_next set_move]. rewrite Hturn.
    by case_bool_decide.
  - intros Hdone.
    by apply (make_move_round_finished gid again _ g' Hk m Hm' Hb').
Qed.

(** X11. Once a round is decided, by a winner or by a draw, no move is
    accepted in that room: every move is refused, with the invalid-role,
    the unauthorized or the round-finished error, and writes nothing. *)
Theorem decided_round_accepts_no_move (gid : pystr) (p : MoveRequest)
    (st : gmap pystr Game) (g : Game) :
  st !! gid = Some g → is_Some (winner g) ∨ draw g = true →
  ∃ e, make_move gid p st = (st, Err e)
    ∧ (e = InvalidRole ∨ (∃ m, e = NotAuthorized m) ∨ e = RoundFinished).
Proof.
  intros Hg Hdone.
  assert (¬ round_open g) as Hclosed.
  { intros [Hw Hd]. destruct Hdone as [[w Hw']|Hd']; congruence. }
  destruct (mark_of_role (role p)) as [m|] eqn:Hm.
  2:{ apply mark_of_role_None in Hm as [HX HO]. exists InvalidRole.
      split; [by apply make_move_invalid_role with g|by left]. }
  destruct (caller_bound_dec g p m) as [Hb|Hb].
  - exists RoundFinished.
    split; [by apply (make_move_round_finished gid p st g Hg m)|by eauto].
  - exists (NotAuthorized m).
    split; [by apply (make_move_unauthorized gid p st g Hg m)|by eauto].
Qed.

(** X12. An accepted move fills exactly one cell that was empty with the
    mover's mark: every other cell, the length of the board, the seats, the
    starter flag and the room code stay as they were. *)
Theorem move_fills_one_empty_cell (gid : pystr) (p : MoveRequest)
    (st st' : gmap pystr Game) (resp : option Game) :
  make_move gid p st = (st', Ok resp) →
  ∃ g g' m,
    st !! gid = Some g ∧ resp = Some g' ∧ role_valid p m
    ∧ board g !! Z.to_nat (index p) = Some None
    ∧ board g' !! Z.to_nat (index p) = Some (Some m)
    ∧ (∀ i, i ≠ Z.to_nat (index p) → board g' !! i = board g !! i)
    ∧ length (board g') = length (board g)
    ∧ x_player g' = x_player g ∧ o_player g' = o_player g
    ∧ x_starts g' = x_starts g ∧ game_id g' = game_id g.
Proof.
  intros Hrun.
  apply make_move_Ok_inv in Hrun
    as (g & m & b' & w & g' & Hg & Hm & _ & _ & _ & Hidx & Hget & Hset & _
        & Hg' & -> & ->).
  unfold index_in_range in Hidx.
  destruct (py_getitem_Val_nonneg (board g) (index p) None (Some m))
    as [Hcell Hset']; [lia|done|].
  assert (b' = <[Z.to_nat (index p) := Some m]> (board g)) as ->
    by congruence.
  exists g, g', m. subst g'. cbn [board x_player o_player x_starts game_id
                                 set_move].
  split_and!; try done.
  - apply list_lookup_insert_eq. by apply lookup_lt_Some in Hcell.
  - intros i Hi. by apply list_lookup_insert_ne.
  - apply length_insert.
Qed.

Lemma same_role_cannot_move_twice_witness :
  ∃ g', make_move room_1234 (mkMoveRequest 5 str_X alice)
          (make_move room_1234 (mkMoveRequest 2 str_X alice)
             {[ room_1234 := game_x_to_win ]}).1
        = ((make_move room_1234 (mkMoveRequest 2 str_X alice)
              {[ room_1234 := game_x_to_win ]}).1, Err RoundFinished)
      ∧ winner g' = Some X.
Proof.
  destruct (same_role_cannot_move_twice room_1234
              (mkMoveRequest 2 str_X alice)
              {[ room_1234 := game_x_to_win ]}
              (make_move room_1234 (mkMoveRequest 2 str_X alice)
                 {[ room_1234 := game_x_to_win ]}).1
              (Some (set_move
                       [Some X; Some X; Some X; None; Some O; Some O;
                        None; None; None]
                       false (Some X) false 4 1 game_x_to_win)))
    as (g' & Hresp & Hagain).
  - vm_compute. reflexivity.
  - exists g'. injection Hresp as <-. split; [|reflexivity].
    apply (Hagain 5). intros [Hw _]. discriminate.
Defined.

Lemma decided_round_accepts_no_move_witness :
  ∃ e, make_move room_1234 (mkMoveRequest 3 str_O bob)
         {[ room_1234 := set_move (board game_x_to_win) false (Some X) false
                           4 1 game_x_to_win ]}
       = ({[ room_1234 := set_move (board game_x_to_win) false (Some X) false
                            4 1 game_x_to_win ]}, Err e)
     ∧ (e = InvalidRole ∨ (∃ m, e = NotAuthorized m) ∨ e = RoundFinished).
Proof.
  apply (decided_round_accepts_no_move room_1234 (mkMoveRequest 3 str_O bob)
           _ (set_move (board game_x_to_win) false (Some X) false 4 1
                game_x_to_win)).
  - vm_compute. reflexivity.
  - left. by eexists.
Defined.

Lemma move_fills_one_empty_cell_witness :
  ∃ g g' m,
    ({[ room_1234 := played_game ]} : gmap pystr Game) !! room_1234 = Some g
    ∧ board g !! 2%nat = Some None
    ∧ board g' !! 2%nat = Some (Some m)
    ∧ (∀ i, i ≠ 2%nat → board g' !! i = board g !! i).
Proof.
  destruct (move_fills_one_empty_cell room_1234 (mkMoveRequest 2 str_O bob)
              {[ room_1234 := played_game ]}
              (make_move room_1234 (mkMoveRequest 2 str_O bob)
                 {[ room_1234 := played_game ]}).1
              (Some (set_move
                       [Some X; Some X; Some O; None; Some O; None;
                        None; None; None]
                       true None false 0 0 played_game)))
    as (g & g' & m & Hg & _ & _ & Hold & Hnew & Hrest & _).
  - vm_compute. reflexivity.
  - exists g, g', m. by split_and!.
Defined.

(** ** Opening a round *)

Lemma single_mark_no_line (i : nat) (m : mark) :
  ¬ some_line_won (<[i := Some m]> empty_board).
Proof.
  intros (l & w & Hl & Hwon). unfold lines in Hl.
  repeat (apply elem_of_cons in Hl as [->|Hl]);
    [..|by apply elem_of_nil in Hl];
    do 9 (destruct i as [|i];
          [vm_compute in Hwon; destruct Hwon as (? & ? & ?); discriminate|]);
    vm_compute in Hwon; destruct Hwon as (? & ? & ?); discriminate.
Qed.

(** On an empty board with the round open, the bound player on turn may
    take any of the nine cells, and the round stays open. *)
Lemma first_move_accepted (gid : pystr) (st : gmap pystr Game) (g : Game)
    (m : mark) (pid : pystr) (idx : Z) :
  st !! gid = Some g → board g = empty_board → round_open g →
  player m g = Some pid → on_turn g m → 0 ≤ idx ≤ 8 →
  ∃ g', make_move gid (mkMoveRequest idx (role_of_mark m) pid) st
        = (<[gid := g']> st, Ok (Some g'))
      ∧ board g' = <[Z.to_nat idx := Some m]> empty_board
      ∧ winner g' = None ∧ draw g' = false
      ∧ x_is_next g' = negb (x_is_next g).
Proof.
  intros Hg Hb Hopen Hp Hturn Hidx.
  destruct (make_move_accepted gid (mkMoveRequest idx (role_of_mark m) pid)
              st g Hg m) as (w & g' & Hw & Hg' & Hrun).
  - apply mark_of_role_of_mark.
  - done.
  - done.
  - done.
  - done.
  - unfold board_ok. by rewrite Hb.
  - unfold target_empty. rewrite Hb. cbn [index].
    apply lookup_replicate. split; [done|lia].
  - cbn [index] in *. rewrite Hb in *.
    set (b' := <[Z.to_nat idx := Some m]> empty_board) in *.
    assert (length b' = 9%nat) as Hlen by (unfold b'; by rewrite length_insert).
    destruct (calculate_winner_spec b' Hlen) as (w' & Hw' & _ & Hiff).
    assert (w' = w) as -> by congruence.
    assert (w = None) as ->.
    { destruct w as [w|]; [|done].
      destruct (single_mark_no_line (Z.to_nat idx) m). apply Hiff. by eexists. }
    assert (all_filled b' = false) as Hnf.
    { destruct (all_filled b') eqn:Hall; [|done].
      apply all_filled_spec in Hall. unfold board_full in Hall.
      assert (∃ j, (j < 9)%nat ∧ j ≠ Z.to_nat idx) as (j & Hj & Hne).
      { destruct (decide (Z.to_nat idx = 0%nat)); [exists 1%nat|exists 0%nat];
          lia. }
      assert (b' !! j = Some None) as Hcell.
      { unfold b'. rewrite list_lookup_insert_ne by done.
        by apply lookup_replicate. }
      apply (proj1 (Forall_lookup _ _) Hall) in Hcell. by destruct Hcell. }
    exists g'. subst g'. cbn [board winner draw x_is_next set_move draw_after].
    split_and!; [exact Hrun|done|done|exact Hnf|done].
Qed.

(** X13. Both resets open a playable round. After Reset Round the player
    bound to the other mark than the last starter, after Reset Scores the
    player bound to the same starter, may take any of the nine cells: the
    move is accepted on the empty board and leaves the round open. *)
Theorem reset_opens_round (gid : pystr) (st : gmap pystr Game) (g : Game)
    (pid : pystr) (idx : Z) :
  st !! gid = Some g → 0 ≤ idx ≤ 8 →
  (∀ m, player m g = Some pid → m = (if x_starts g then O else X) →
     ∃ st' g',
       make_move gid (mkMoveRequest idx (role_of_mark m) pid)
         (reset_round gid st).1 = (st', Ok (Some g'))
       ∧ board g' = <[Z.to_nat idx := Some m]> empty_board
       ∧ winner g' = None ∧ draw g' = false)
  ∧ (∀ m, player m g = Some pid → m = (if x_starts g then X else O) →
       ∃ st' g',
         make_move gid (mkMoveRequest idx (role_of_mark m) pid)
           (reset_scores gid st).1 = (st', Ok (Some g'))
         ∧ board g' = <[Z.to_nat idx := Some m]> empty_board
         ∧ winner g' = None ∧ draw g' = false).
Proof.
  intros Hg Hidx. split; intros m Hp ->.
  - rewrite reset_round_run, Hg. cbn zeta. cbn [fst].
    destruct (first_move_accepted gid
                (<[gid := set_reset_round (negb (x_starts g)) g]> st)
                (set_reset_round (negb (x_starts g)) g)
                (if x_starts g then O else X) pid idx)
      as (g' & Hrun & Hb & Hw & Hd & _).
    + apply lookup_insert_eq.
    + done.
    + done.
    + revert Hp. by destruct (x_starts g).
    + unfold on_turn. destruct (x_starts g); reflexivity.
    + done.
    + eexists _, g'. by split_and!.
  - rewrite reset_scores_run, Hg. cbn zeta. cbn [fst].
    destruct (first_move_accepted gid
                (<[gid := set_reset_scores (x_starts g) g]> st)
                (set_reset_scores (x_starts g) g)
                (if x_starts g then X else O) pid idx)
      as (g' & Hrun & Hb & Hw & Hd & _).
    + apply lookup_insert_eq.
    + done.
    + done.
    + revert Hp. by destruct (x_starts g).
    + unfold on_turn. destruct (x_starts g); reflexivity.
    + done.
    + eexists _, g'. by split_and!.
Qed.

Lemma reset_opens_round_witness :
  ∃ st' g',
    make_move room_1234 (mkMoveRequest 4 (role_of_mark O) bob)
      (reset_round room_1234 {[ room_1234 := game_last_cell ]}).1
    = (st', Ok (Some g'))
    ∧ board g' = <[4%nat := Some O]> empty_board
    ∧ winner g' = None ∧ draw g' = false.
Proof.
  destruct (reset_opens_round room_1234 {[ room_1234 := game_last_cell ]}
              game_last_cell bob 4) as [Hround _].
  - vm_compute. reflexivity.
  - lia.
  - apply (Hround O); reflexivity.
Defined.

(** ** The two resets together *)

Lemma set_reset_scores_twice (g : Game) :
  set_reset_scores (x_starts (set_reset_scores (x_starts g) g))
    (set_reset_scores (x_starts g) g)
  = set_reset_scores (x_starts g) g.
Proof. reflexivity. Qed.

Lemma set_reset_commute (g : Game) :
  set_reset_round (negb (x_starts (set_reset_scores (x_starts g) g)))
    (set_reset_scores (x_starts g) g)
  = set_reset_scores (x_starts (set_reset_round (negb (x_starts g)) g))
      (set_reset_round (negb (x_starts g)) g).
Proof. reflexivity. Qed.

(** X14. Reset Scores is idempotent, Reset Round and Reset Scores commute,
    and two Reset Rounds in a row give the opening move back to the starter
    of the round they interrupted: the store is then the one a single reset
    to that starter would leave. *)
Theorem resets_compose (gid : pystr) (st : gmap pystr Game) :
  (reset_scores gid (reset_scores gid st).1).1 = (reset_scores gid st).1
  ∧ (reset_round gid (reset_scores gid st).1).1
    = (reset_scores gid (reset_round gid st).1).1
  ∧ (∀ g, st !! gid = Some g →
       (reset_round gid (reset_round gid st).1).1
       = <[gid := set_reset_round (x_starts g) g]> st).
Proof.
  rewrite !reset_round_run, !reset_scores_run.
  destruct (st !! gid) as [g|] eqn:Hg; cbn zeta; cbn [fst].
  - rewrite !lookup_insert_eq.
    cbn zeta. cbn [fst]. rewrite !insert_insert_eq. split_and!.
    + by rewrite set_reset_scores_twice.
    + by rewrite set_reset_commute.
    + intros g0 [= <-]. f_equal. unfold set_reset_round. cbn.
      by rewrite negb_involutive.
  - rewrite Hg. by split_and!.
Qed.

Lemma resets_compose_witness :
  (reset_round room_1234
     (reset_round room_1234 {[ room_1234 := played_game ]}).1).1
  = <[room_1234 := set_reset_round true played_game]>
      {[ room_1234 := played_game ]}.
Proof.
  apply (proj2 (proj2 (resets_compose room_1234
                         {[ room_1234 := played_game ]})) played_game).
  vm_compute. reflexivity.
Defined.

(** ** calculate_winner beyond the stored boards *)

Lemma py_getitem_fmap {A B} (f : A → B) (l : list A) (i : Z) :
  py_getitem (f <$> l) i = py_map f (py_getitem l i).
Proof.
  unfold py_getitem. rewrite length_fmap.
  destruct ((_ <? 0) || _); [done|].
  rewrite list_lookup_fmap. by destruct (l !! _).
Qed.

Lemma line_test_swap (b : list cell) (i j k : Z) :
  line_test (swap_marks b) i j k = line_test b i j k.
Proof.
  unfold line_test, swap_marks. rewrite !py_getitem_fmap.
  destruct (py_getitem b i) as [[[|]|]|], (py_getitem b j) as [[[|]|]|],
    (py_getitem b k) as [[[|]|]|]; reflexivity.
Qed.

Lemma calculate_winner_from_swap (b : list cell) (ls : list (Z * Z * Z)) :
  calculate_winner_from (swap_marks b) ls
  = py_map (λ c : cell, other <$> c) (calculate_winner_from b ls).
Proof.
  induction ls as [|[[i j] k] ls IH]; [done|].
  cbn [calculate_winner_from]. rewrite line_test_swap.
  destruct (line_test b i j k) as [[|]|]; cbn; [|done|done].
  unfold swap_marks. by rewrite py_getitem_fmap.
Qed.

(** X15. The win rule treats the two marks alike: on any board, of any
    length, exchanging X and O exchanges the winner and changes nothing
    else, an [IndexError] included. *)
Theorem calculate_winner_swap (b : list cell) :
  calculate_winner (swap_marks b)
  = py_map (λ c : cell, other <$> c) (calculate_winner b).
Proof. apply calculate_winner_from_swap. Qed.

Lemma py_getitem_take_9 {A} (l : list A) (i : Z) :
  (9 ≤ length l)%nat → 0 ≤ i < 9 →
  py_getitem (take 9 l) i = py_getitem l i.
Proof.
  intros Hlen Hi.
  destruct (py_getitem_in_range l i) as (a & Ha & ->); [lia|].
  destruct (py_getitem_in_range (take 9 l) i) as (a' & Ha' & ->).
  { rewrite length_take. lia. }
  rewrite lookup_take_lt in Ha' by lia. congruence.
Qed.

Lemma calculate_winner_from_take_9 (b : list cell) (ls : list (Z * Z * Z)) :
  (9 ≤ length b)%nat → Forall line_in_range ls →
  calculate_winner_from (take 9 b) ls = calculate_winner_from b ls.
Proof.
  intros Hlen. induction 1 as [|[[i j] k] ls (Hi & Hj & Hk) _ IH]; [done|].
  cbn [calculate_winner_from]. unfold line_test.
  rewrite !(py_getitem_take_9 b) by done. by rewrite IH.
Qed.

(** X16. On a board of nine cells or more [calculate_winner] raises
    nothing and reads the first nine cells only. *)
Theorem calculate_winner_long_board (b : list cell) :
  (9 ≤ length b)%nat →
  calculate_winner b = calculate_winner (take 9 b)
  ∧ ∃ w, calculate_winner b = Val w.
Proof.
  intros Hlen. unfold calculate_winner.
  rewrite (calculate_winner_from_take_9 b lines Hlen lines_in_range).
  split; [done|].
  destruct (calculate_winner_spec (take 9 b)) as (w & Hw & _).
  { rewrite length_take. lia. }
  exists w. unfold calculate_winner in Hw.
  by rewrite (calculate_winner_from_take_9 b lines Hlen lines_in_range) in Hw.
Qed.

Lemma calculate_winner_long_board_witness :
  calculate_winner (board game_x_to_win ++ [Some O; Some O; Some O])
  = calculate_winner
      (take 9 (board game_x_to_win ++ [Some O; Some O; Some O]))
  ∧ ∃ w, calculate_winner (board game_x_to_win ++ [Some O; Some O; Some O])
         = Val w.
Proof.
  apply calculate_winner_long_board. vm_compute. lia.
Defined.

(** ** Join and the round in progress *)

Section JoinFrame.
Variable char_isdigit : N → bool.

(** X17. A Join never touches the round in progress: whatever it answers,
    the record of every room keeps its board, its turn and starter flags,
    its winner and draw flags, both scores and its code. *)
Theorem join_keeps_round_state (payload : JoinRequest)
    (st : gmap pystr Game) (k : pystr) (g : Game) :
  st !! k = Some g →
  ∃ g', (join_game char_isdigit payload st).1 !! k = Some g'
    ∧ board g' = board g
    ∧ x_starts g' = x_starts g ∧ x_is_next g' = x_is_next g
    ∧ winner g' = winner g ∧ draw g' = draw g
    ∧ score_x g' = score_x g ∧ score_o g' = score_o g
    ∧ game_id g' = game_id g.
Proof.
  intros Hk.
  destruct (serve_lookup_Some char_isdigit (Join payload) st k g Hk)
    as (g' & Hk' & Hcase).
  exists g'. split; [done|].
  destruct Hcase as [->|[_ Hstep]]; [by split_and!|].
  inversion Hstep; subst; by split_and!.
Qed.

(** X18. An open round is never stuck: on a reachable store a record whose
    round is open has an empty cell, and a move into it by the bound player
    on turn is accepted. *)
Theorem open_round_can_progress (st : gmap pystr Game) (gid : pystr)
    (g : Game) :
  reachable char_isdigit st → st !! gid = Some g → round_open g →
  ∃ idx, 0 ≤ idx ≤ 8
    ∧ board g !! Z.to_nat idx = Some None
    ∧ ∀ m pid, player m g = Some pid → on_turn g m →
        ∃ st' g',
          make_move gid (mkMoveRequest idx (role_of_mark m) pid) st
          = (st', Ok (Some g')).
Proof.
  intros Hreach Hg Hopen.
  destruct (reachable_board_and_flags char_isdigit st gid g Hreach Hg)
    as [Hlen (_ & Hwin & Hdraw)].
  assert (¬ board_full (board g)) as Hnf.
  { intros Hfull. destruct Hopen as [Hw Hd].
    assert (¬ some_line_won (board g)) as Hnone.
    { intros Hwon. apply Hwin in Hwon. rewrite Hw in Hwon. by destruct Hwon. }
    assert (draw g = true) by (by apply Hdraw). congruence. }
  apply not_Forall_Exists in Hnf; [|apply _].
  apply list.Exists_exists in Hnf as (c & Hc & Hnone).
  apply list_elem_of_lookup_1 in Hc as (i & Hi).
  assert (c = None) as ->.
  { destruct c; [|done]. destruct Hnone. by eexists. }
  pose proof (lookup_lt_Some _ _ _ Hi) as Hlt. unfold board_ok in Hlen.
  exists (Z.of_nat i). rewrite Nat2Z.id. split_and!; [lia|lia|done|].
  intros m pid Hp Hturn.
  destruct (make_move_accepted gid
              (mkMoveRequest (Z.of_nat i) (role_of_mark m) pid) st g Hg m)
    as (w & g' & _ & _ & Hrun).
  - apply mark_of_role_of_mark.
  - done.
  - done.
  - done.
  - unfold index_in_range. cbn. lia.
  - done.
  - unfold target_empty. cbn. by rewrite Nat2Z.id.
  - by eexists _, g'.
Qed.

End JoinFrame.

Lemma join_keeps_round_state_witness :
  ∃ g', (join_game ascii_digit (mkJoinRequest room_1234 [])
           {[ room_1234 := played_game ]}).1 !! room_1234 = Some g'
      ∧ board g' = board played_game ∧ x_is_next g' = false.
Proof.
  destruct (join_keeps_round_state ascii_digit (mkJoinRequest room_1234 [])
              {[ room_1234 := played_game ]} room_1234 played_game)
    as (g' & Hg' & Hb & _ & Hn & _).
  - vm_compute. reflexivity.
  - exists g'. by split_and!.
Defined.

Lemma open_round_can_progress_witness :
  ∃ idx, 0 ≤ idx ≤ 8
    ∧ board played_game !! Z.to_nat idx = Some None
    ∧ ∃ st' g',
        make_move room_1234 (mkMoveRequest idx (role_of_mark O) bob)
          (serve_all ascii_digit played_requests ∅)
        = (st', Ok (Some g')).
Proof.
  destruct (open_round_can_progress ascii_digit
              (serve_all ascii_digit played_requests ∅) room_1234 played_game)
    as (idx & Hidx & Hcell & Hmove).
  - exists played_requests. reflexivity.
  - vm_compute. reflexivity.
  - split; reflexivity.
  - exists idx. split_and!; [lia|lia|done|].
    apply (Hmove O bob); reflexivity.
Defined.

(** Witnesses for the seat rule of Join, the winner of a move and the
    length of the stored boards. *)
Lemma join_game_by_the_rule_witness :
  join_game ascii_digit (mkJoinRequest room_1234 carol)
    {[ room_1234 := played_game ]}
  = ({[ room_1234 := played_game ]}, Err GameFull).
Proof.
  destruct (join_game_by_the_rule ascii_digit room_1234 carol
              {[ room_1234 := played_game ]}) as [_ Hold].
  - vm_compute. split; [reflexivity|]. repeat constructor.
  - destruct (Hold played_game) as (_ & _ & Hnew).
    + vm_compute. reflexivity.
    + destruct Hnew as (_ & _ & Hfull); try discriminate.
      apply Hfull; by eexists.
Defined.


Lemma reachable_board_ok_witness : board_ok played_game.
Proof.
  apply (reachable_board_ok ascii_digit
           (serve_all ascii_digit played_requests ∅) room_1234 played_game).
  - exists played_requests. reflexivity.
  - vm_compute. reflexivity.
Defined.
